(** * Watch mode of elm-review: a model of [lib/watch.js]

    The file embeds the watch-mode orchestrator ([watchFiles] and
    [watchConfiguration]) as an event-driven state machine.  Every
    [async] handler of the source is cut at its [await]s: the part that
    runs when the watcher emits the event, and one continuation per
    [await], resumed when the awaited promise resolves.  Closure
    variables of one [watchFiles] call ([elmJsonContent], [runReview],
    [suppressedErrorsTimeout], the five watchers) form a [Generation];
    the module-level flag [isFlushingStdio] and the in-memory file cache
    of [AppState] are shared by all generations of the process. *)

From stdpp Require Import gmap strings list pretty.

Set Warnings "-register-all".
Open Scope string_scope.
Open Scope list_scope.

(** ** JSON values and [JSON.stringify] *)

(** Values as [JSON.parse] builds them.  Object members are kept in
    order: [JSON.stringify] walks them in that order. *)
Inductive Json : Type :=
| JNull
| JBool (b : bool)
| JNumber (n : Z)
| JString (s : string)
| JArray (items : list Json)
| JObject (members : list (string * Json)).

Definition hex_digit (n : nat) : Ascii.ascii :=
  Ascii.ascii_of_nat (if Nat.ltb n 10 then 48 + n else 87 + n).

(** Escaping of one character inside a JSON string literal. *)
Definition json_escape (c : Ascii.ascii) : string :=
  let n := Ascii.nat_of_ascii c in
  let bs := String (Ascii.ascii_of_nat 92) EmptyString in
  if Nat.eqb n 34 then bs +:+ String c EmptyString
  else if Nat.eqb n 92 then bs +:+ bs
  else if Nat.eqb n 8 then bs +:+ "b"
  else if Nat.eqb n 9 then bs +:+ "t"
  else if Nat.eqb n 10 then bs +:+ "n"
  else if Nat.eqb n 12 then bs +:+ "f"
  else if Nat.eqb n 13 then bs +:+ "r"
  else if Nat.ltb n 32 then
    bs +:+ "u00" +:+ String (hex_digit (n / 16)) (String (hex_digit (n mod 16)) EmptyString)
  else String c EmptyString.

Fixpoint json_escape_string (s : string) : string :=
  match s with
  | EmptyString => EmptyString
  | String c rest => json_escape c +:+ json_escape_string rest
  end.

Definition json_quote (s : string) : string :=
  let q := String (Ascii.ascii_of_nat 34) EmptyString in
  q +:+ json_escape_string s +:+ q.

Fixpoint JSON_stringify (j : Json) : string :=
  match j with
  | JNull => "null"
  | JBool true => "true"
  | JBool false => "false"
  | JNumber n => pretty n
  | JString s => json_quote s
  | JArray items =>
      "[" +:+ String.concat "," (map JSON_stringify items) +:+ "]"
  | JObject members =>
      let member :=
        fix member (ms : list (string * Json)) : list string :=
          match ms with
          | [] => []
          | (k, v) :: rest => (json_quote k +:+ ":" +:+ JSON_stringify v) :: member rest
          end in
      "{" +:+ String.concat "," (member members) +:+ "}"
  end.

(** The member of an object under key [k]. *)
Fixpoint member_of (k : string) (members : list (string * Json)) : option Json :=
  match members with
  | [] => None
  | (k', v) :: rest => if String.eqb k k' then Some v else member_of k rest
  end.

(** Deep structural equality of two values, the comparison the
    specification names for the manifest (it is not the one the program
    makes: line 71 compares serialisations).  Arrays are equal item by
    item; objects are equal when they have the same keys with equal
    values, in whatever order the members come.  The keys of an object
    are distinct, as in every value [JSON.parse] builds. *)
Fixpoint deep_equal (a b : Json) : bool :=
  match a, b with
  | JNull, JNull => true
  | JBool x, JBool y => Bool.eqb x y
  | JNumber x, JNumber y => Z.eqb x y
  | JString x, JString y => String.eqb x y
  | JArray xs, JArray ys =>
      (fix items (xs ys : list Json) : bool :=
         match xs, ys with
         | [], [] => true
         | x :: xs', y :: ys' => deep_equal x y && items xs' ys'
         | _, _ => false
         end) xs ys
  | JObject ms, JObject ns =>
      Nat.eqb (length ms) (length ns)
      && (fix members (ms : list (string * Json)) : bool :=
            match ms with
            | [] => true
            | (k, v) :: rest =>
                match member_of k ns with
                | Some w => deep_equal v w
                | None => false
                end && members rest
            end) ms
  | _, _ => false
  end.

(** ** Data of the watcher *)

(** [ElmFile] of [types/content]: path, source text, and the parsed form
    ([null] until the engine computes it). *)
Record ElmFile : Type := mkElmFile {
  path : string;
  source : string;
  ast : option Json
}.

Record Readme : Type := mkReadme {
  readme_path : string;
  readme_content : string
}.

(** The fields of [Options] that [watch.js] reads.  [suppressedErrorsFolder]
    and [userSrc] are zero-argument functions in the source; the record
    holds what they return. *)
Record Options : Type := mkOptions {
  elmJsonPath : string;
  readmePath : option string;
  report : string;
  debug : bool;
  watchConfig : bool;
  suppressedErrorsFolder : string;
  userSrc : string
}.

(** The second argument of [watchFiles].  [app] is identified with the
    generation that owns it. *)
Record WatchOptions : Type := mkWatchOptions {
  elmJsonData_project : Json;
  elmFiles : list ElmFile;
  sourceDirectories : list string;
  reviewElmJson_sourceDirectories : list string;
  reviewElmJsonPath : option string
}.

Inductive Target : Type :=
| Manifest | ReadmeFile | SourceFiles | SuppressionFolder | ConfigurationFiles.

Inductive EventKind : Type := Add | Change | Unlink.

(** Arguments of one [chokidar.watch] call. *)
Record Watcher : Type := mkWatcher {
  paths : list string;
  ignored : list string;
  ignoreInitial : bool
}.

(** The variable [runReview]: the closure that forwards to
    [Runner.requestReview], or [() => {}]. *)
Inductive RunReview : Type := ForwardsToRunner | DoesNothing.

(** Closure state of one call of [watchFiles]. *)
Record Generation : Type := mkGeneration {
  options : Options;
  elmJsonContent : Json;
  runReview : RunReview;
  suppressedErrorsTimeout : option nat;
  elmJsonWatcher : Watcher;
  readmeWatcher : option Watcher;
  fileWatcher : Watcher;
  suppressedErrorsWatcher : Watcher;
  configurationWatcher : option Watcher
}.

(** What a suspended handler waits for, with the local variables its
    continuation still needs. *)
Inductive Task : Type :=
| ElmJsonAwaitRead
| ElmJsonAwaitClose
| ReadmeAddAwaitRead (readmePath : string)
| ReadmeChangeAwaitRead (readmePath : string)
| FileAddAwaitRead (relativePath : string) (elmFile : nat) (isNewFile : bool)
| FileChangeAwaitRead (relativePath : string) (elmFile : nat)
| SuppressedErrorsAwaitRead
| ConfigurationAwaitClose
| RestartAwaitClose.

(** Value an awaited promise resolves with. *)
Inductive Value : Type :=
| VUnit
| VString (s : string)
| VJson (j : Json).

(** A timer of [setTimeout]: identifier, due time, owning generation. *)
Record Timer : Type := mkTimer {
  timer_id : nat;
  due : nat;
  timer_gen : nat
}.

(** Calls that leave the orchestrator, in program order.  Records travel
    by reference: [CollectFile] carries the address of the record. *)
Inductive Effect : Type :=
| StdinOnReadable
| ChokidarWatch (g : nat) (t : Target) (w : Watcher)
| FsReadJsonFile (p : string)
| FsReadFile (p : string)
| SuppressedErrorsRead (g : nat)
| RequestReview (g : nat)
| CollectReadme (g : nat) (r : Readme)
| CollectFile (g : nat) (elmFile : nat)
| RemoveFile (g : nat) (relativePath : string)
| UpdateSuppressedErrors (g : nat) (data : Json)
| Close (g : nat) (t : Target)
| ClearConsole
| DebugLog (msg : string)
| ConsoleLog (msg : string)
| RebuildAndRewatch (g : nat)
| OnError (g : nat) (err : string)
| UncaughtError (g : nat) (t : Target) (err : string).

(** The whole process.  [heap] holds the [ElmFile] objects, addressed by
    position; [filesInMemoryCache] maps a path to the address of its
    record, so that a handler which mutates the record it looked up
    mutates the cache. *)
Record Process : Type := mkProcess {
  isFlushingStdio : bool;
  heap : list ElmFile;
  filesInMemoryCache : gmap string nat;
  cachedReadme : option Readme;
  generations : list Generation;
  pending : list (nat * Task);
  timers : list Timer;
  nextTimer : nat;
  now : nat
}.

#[global] Instance Json_inhabited : Inhabited Json := populate JNull.
#[global] Instance Target_eq_dec : EqDecision Target.
Proof. solve_decision. Defined.
#[global] Instance EventKind_eq_dec : EqDecision EventKind.
Proof. solve_decision. Defined.
#[global] Instance RunReview_eq_dec : EqDecision RunReview.
Proof. solve_decision. Defined.
#[global] Instance Readme_eq_dec : EqDecision Readme.
Proof. solve_decision. Defined.
#[global] Instance Watcher_eq_dec : EqDecision Watcher.
Proof. solve_decision. Defined.

(** ** The monad of handler bodies: state of the process, and the calls
    made, in order *)

Definition M (A : Type) : Type := Process → A * Process * list Effect.

#[global] Instance M_ret : MRet M := λ A a s, (a, s, []).

#[global] Instance M_bind : MBind M := λ A B f m s,
  let '(a, s1, e1) := m s in
  let '(b, s2, e2) := f a s1 in
  (b, s2, e1 ++ e2).

Definition get_process : M Process := λ s, (s, s, []).
Definition modify (f : Process → Process) : M unit := λ s, (tt, f s, []).
Definition emit (e : Effect) : M unit := λ s, (tt, s, [e]).

Fixpoint for_each {A : Type} (l : list A) (f : A → M unit) : M unit :=
  match l with
  | [] => mret tt
  | x :: rest => f x;; for_each rest f
  end.

Definition when (b : bool) (m : M unit) : M unit := if b then m else mret tt.

(** Field updates of [Process] and [Generation]. *)
Definition set_isFlushingStdio (b : bool) (s : Process) : Process :=
  mkProcess b (heap s) (filesInMemoryCache s) (cachedReadme s) (generations s)
            (pending s) (timers s) (nextTimer s) (now s).
Definition set_heap (h : list ElmFile) (s : Process) : Process :=
  mkProcess (isFlushingStdio s) h (filesInMemoryCache s) (cachedReadme s) (generations s)
            (pending s) (timers s) (nextTimer s) (now s).
Definition set_filesInMemoryCache (c : gmap string nat) (s : Process) : Process :=
  mkProcess (isFlushingStdio s) (heap s) c (cachedReadme s) (generations s)
            (pending s) (timers s) (nextTimer s) (now s).
Definition set_cachedReadme (r : option Readme) (s : Process) : Process :=
  mkProcess (isFlushingStdio s) (heap s) (filesInMemoryCache s) r (generations s)
            (pending s) (timers s) (nextTimer s) (now s).
Definition set_generations (gs : list Generation) (s : Process) : Process :=
  mkProcess (isFlushingStdio s) (heap s) (filesInMemoryCache s) (cachedReadme s) gs
            (pending s) (timers s) (nextTimer s) (now s).
Definition set_pending (p : list (nat * Task)) (s : Process) : Process :=
  mkProcess (isFlushingStdio s) (heap s) (filesInMemoryCache s) (cachedReadme s) (generations s)
            p (timers s) (nextTimer s) (now s).
Definition set_timers (ts : list Timer) (s : Process) : Process :=
  mkProcess (isFlushingStdio s) (heap s) (filesInMemoryCache s) (cachedReadme s) (generations s)
            (pending s) ts (nextTimer s) (now s).
Definition set_nextTimer (n : nat) (s : Process) : Process :=
  mkProcess (isFlushingStdio s) (heap s) (filesInMemoryCache s) (cachedReadme s) (generations s)
            (pending s) (timers s) n (now s).
Definition set_now (n : nat) (s : Process) : Process :=
  mkProcess (isFlushingStdio s) (heap s) (filesInMemoryCache s) (cachedReadme s) (generations s)
            (pending s) (timers s) (nextTimer s) n.

Definition set_elmJsonContent (j : Json) (G : Generation) : Generation :=
  mkGeneration (options G) j (runReview G) (suppressedErrorsTimeout G) (elmJsonWatcher G)
               (readmeWatcher G) (fileWatcher G) (suppressedErrorsWatcher G)
               (configurationWatcher G).
Definition set_runReview (r : RunReview) (G : Generation) : Generation :=
  mkGeneration (options G) (elmJsonContent G) r (suppressedErrorsTimeout G) (elmJsonWatcher G)
               (readmeWatcher G) (fileWatcher G) (suppressedErrorsWatcher G)
               (configurationWatcher G).
Definition set_suppressedErrorsTimeout (t : option nat) (G : Generation) : Generation :=
  mkGeneration (options G) (elmJsonContent G) (runReview G) t (elmJsonWatcher G)
               (readmeWatcher G) (fileWatcher G) (suppressedErrorsWatcher G)
               (configurationWatcher G).

(** Assignment to a closure variable of generation [g]. *)
Definition update_generation (g : nat) (f : Generation → Generation) : M unit :=
  modify (λ s, set_generations (alter f g (generations s)) s).

(** [await]: the handler is suspended; its continuation joins the
    pending ones. *)
Definition await (g : nat) (t : Task) : M unit :=
  modify (λ s, set_pending (pending s ++ [(g, t)]) s).

(** A new object literal [{path, source, ast}]. *)
Definition new_ElmFile (f : ElmFile) : M nat :=
  λ s, (length (heap s), set_heap (heap s ++ [f]) s, []).

(** Read and write of a field through a reference. *)
Definition deref (r : nat) : M (option ElmFile) := λ s, (heap s !! r, s, []).
Definition assign (r : nat) (f : ElmFile) : M unit :=
  modify (λ s, set_heap (<[r := f]> (heap s)) s).

(** ** [AppState] *)

(** Modelled from the spec: [AppState.getFileFromMemoryCache] of
    [lib/state.js], which is not part of the sources at hand.  Section
    4.2: [lookup(path) -> Optional<FileRecord>], no side effect.  The
    result is the stored record itself (section 3: mutation is in place,
    the same record identity is reused). *)
Definition AppState_getFileFromMemoryCache (p : string) : M (option nat) :=
  λ s, (filesInMemoryCache s !! p, s, []).

(** Modelled from the spec: [AppState.filesWereUpdated] of [lib/state.js],
    which is not part of the sources at hand.  Section 4.3: the record is
    registered in the cache, under its [path]. *)
Definition AppState_filesWereUpdated (files : list nat) : M unit :=
  for_each files (λ r,
    f ← deref r;
    match f with
    | Some f => modify (λ s, set_filesInMemoryCache (<[path f := r]> (filesInMemoryCache s)) s)
    | None => mret tt
    end).

(** Modelled from the spec: [AppState.readmeChanged] of [lib/state.js],
    which is not part of the sources at hand.  Section 4.3, Readme row:
    the content is compared with the cached one, the cache is updated,
    and the result tells whether the content changed. *)
Definition AppState_readmeChanged (readme : Readme) : M bool :=
  λ s, (match cachedReadme s with
        | Some old => bool_decide (readme_content old ≠ readme_content readme)
        | None => true
        end,
        set_cachedReadme (Some readme) s, []).

(** ** Timers *)

(** [clearTimeout(id)]: nothing happens for [undefined] or for a timer
    that already fired. *)
Definition clearTimeout (id : option nat) : M unit :=
  match id with
  | Some i => modify (λ s, set_timers (filter (λ t, timer_id t ≠ i) (timers s)) s)
  | None => mret tt
  end.

(** [setTimeout(callback, delay)] for the callback of
    [updateSuppressedErrors] in generation [g]. *)
Definition setTimeout (g : nat) (delay : nat) : M nat :=
  λ s, (nextTimer s,
        set_nextTimer (S (nextTimer s))
          (set_timers (timers s ++ [mkTimer (nextTimer s) (now s + delay) g]) s),
        []).

(** ** Patterns of the watch library *)

(** chokidar 3 hands the watched globs and the [ignored] patterns to
    [anymatch], which reads a string as a glob of [picomatch] (with the
    option [dot]) and tests it against the whole path of what the
    watcher found, in the form the watched glob has (relative when the
    glob is).  The patterns of this module are made of literal text,
    [*] and [**]: [*] stands for any run of characters inside one
    segment of the path, a segment [**] for any number of segments.
    Other glob syntax is not interpreted. *)

(** The characters [/] and [*]. *)
Definition slash : Ascii.ascii := Ascii.ascii_of_nat 47.
Definition star : Ascii.ascii := Ascii.ascii_of_nat 42.

(** The segments of a path or pattern, between the [/]. *)
Fixpoint segments_of (s : string) : list string :=
  match s with
  | EmptyString => [EmptyString]
  | String c rest =>
      if Ascii.eqb c slash then EmptyString :: segments_of rest
      else match segments_of rest with
           | segment :: more => String c segment :: more
           | [] => [String c EmptyString]
           end
  end.

(** One segment of a pattern against one segment of a path. *)
Fixpoint segment_match (pattern s : string) : bool :=
  match pattern with
  | EmptyString => match s with EmptyString => true | String _ _ => false end
  | String c rest =>
      if Ascii.eqb c star then
        (fix skip (s : string) : bool :=
           segment_match rest s
           || match s with EmptyString => false | String _ s' => skip s' end) s
      else
        match s with
        | EmptyString => false
        | String d s' => Ascii.eqb c d && segment_match rest s'
        end
  end.

Fixpoint segments_match (pattern p : list string) : bool :=
  match pattern with
  | [] => match p with [] => true | _ :: _ => false end
  | segment :: rest =>
      if String.eqb segment "**" then
        (fix skip (p : list string) : bool :=
           segments_match rest p
           || match p with [] => false | _ :: p' => skip p' end) p
      else
        match p with
        | [] => false
        | x :: p' => segment_match segment x && segments_match rest p'
        end
  end.

Definition glob_match (pattern p : string) : bool :=
  segments_match (segments_of pattern) (segments_of p).

(** Whether a pattern has glob syntax ([is-glob]), for the patterns of
    this module: whether it has a [*]. *)
Fixpoint is_glob (pattern : string) : bool :=
  match pattern with
  | EmptyString => false
  | String c rest => Ascii.eqb c star || is_glob rest
  end.

(** What chokidar tests a path against, given [ignored]: the patterns,
    and [pattern/**] for every pattern without glob syntax, so that a
    directory named by its path is ignored with what is below it. *)
Definition chokidar_ignored (patterns : list string) : list string :=
  patterns ++ map (λ pattern, pattern +:+ "/**")
                  (List.filter (λ pattern, negb (is_glob pattern)) patterns).

(** A watcher reports a path that one of its globs matches and none of
    the patterns it ignores does. *)
Definition reports (w : Watcher) (p : string) : bool :=
  existsb (λ pattern, glob_match pattern p) (paths w)
  && negb (existsb (λ pattern, glob_match pattern p) (chokidar_ignored (ignored w))).

(** ** [watchFiles] and [watchConfiguration] *)

(** What the environment does to the process.  [Emit] and [EmitError]
    are events of a watcher, whichever they are: the runs of the model
    include events that chokidar does not emit, for a path the watcher
    does not report or for a watcher whose [close()] was already called
    (it removes the listeners).  What holds of every run of the model
    holds of every run of the program; a run told to show that something
    can happen has to be one chokidar can produce. *)
Inductive Input : Type :=
| CallWatchFiles (opts : Options) (wopts : WatchOptions)
| Emit (g : nat) (t : Target) (k : EventKind) (absolutePath : string)
| EmitError (g : nat) (t : Target) (err : string)
| Resolve (n : nat) (v : Value)
| Elapse (ms : nat).

(** The process before the first call of [watchFiles]: line 21. *)
Definition initial : Process := mkProcess false [] ∅ None [] [] [] 0 0.

Section Watch.

(** Helpers of other modules and of Node, left abstract:
    [OsHelpers.makePathOsAgnostic], [path.relative(process.cwd(), _)],
    [path.resolve] and [Anonymize.path]. *)
Variable makePathOsAgnostic : string → string.
Variable path_relative : string → string.
Variable path_resolve : string → string → string.
Variable Anonymize_path : Options → string → string.

(** A call [runReview()] in generation [g]: whatever the variable is
    bound to at the time of the call. *)
Definition call_runReview (g : nat) : M unit :=
  s ← get_process;
  match generations s !! g with
  | Some G =>
      match runReview G with
      | ForwardsToRunner => emit (RequestReview g)
      | DoesNothing => mret tt
      end
  | None => mret tt
  end.

Definition clearConsole : M unit := emit ClearConsole.

(** [w && w.close()] *)
Definition close_if_present (w : option Watcher) (g : nat) (t : Target) : M unit :=
  match w with
  | Some _ => emit (Close g t)
  | None => mret tt
  end.

(** *** [elmJsonWatcher] *)

Definition elmJsonWatcher_change (g : nat) (G : Generation) : M unit :=
  emit (FsReadJsonFile (elmJsonPath (options G)));;
  await g ElmJsonAwaitRead.

(** After [await FS.readJsonFile]: lines 71 to 81. *)
Definition elmJsonWatcher_change_read (g : nat) (newValue : Json) : M unit :=
  s ← get_process;
  match generations s !! g with
  | Some G =>
      if bool_decide (JSON_stringify newValue ≠ JSON_stringify (elmJsonContent G)) then
        update_generation g (set_elmJsonContent newValue);;
        update_generation g (set_runReview DoesNothing);;
        clearTimeout (suppressedErrorsTimeout G);;
        emit (Close g Manifest);;
        close_if_present (readmeWatcher G) g ReadmeFile;;
        emit (Close g SourceFiles);;
        emit (Close g SuppressionFolder);;
        close_if_present (configurationWatcher G) g ConfigurationFiles;;
        await g ElmJsonAwaitClose
      else mret tt
  | None => mret tt
  end.

(** After [await Promise.all]: lines 83 to 93. *)
Definition elmJsonWatcher_change_closed (g : nat) : M unit :=
  s ← get_process;
  match generations s !! g with
  | Some G =>
      when (bool_decide (report (options G) ≠ "json"))
        (when (negb (debug (options G))) clearConsole;;
         emit (DebugLog "Your `elm.json` has changed. Restarting elm-review."));;
      emit (RebuildAndRewatch g)
  | None => mret tt
  end.

(** *** [readmeWatcher] *)

Definition readmeWatcher_add (g : nat) (readmePath : string) : M unit :=
  emit (DebugLog "README.md has been added");;
  emit (FsReadFile readmePath);;
  await g (ReadmeAddAwaitRead readmePath).

Definition readmeWatcher_add_read (g : nat) (readmePath content : string) : M unit :=
  let readme := mkReadme readmePath content in
  AppState_readmeChanged readme;;
  emit (CollectReadme g readme);;
  call_runReview g.

Definition readmeWatcher_change (g : nat) (readmePath : string) : M unit :=
  emit (FsReadFile readmePath);;
  await g (ReadmeChangeAwaitRead readmePath).

Definition readmeWatcher_change_read (g : nat) (readmePath content : string) : M unit :=
  let readme := mkReadme readmePath content in
  readmeHasChanged ← AppState_readmeChanged readme;
  when readmeHasChanged
    (emit (DebugLog "README.md has been changed");;
     emit (CollectReadme g readme);;
     call_runReview g).

(** *** [fileWatcher] *)

(** The constant list given as [ignored]. *)
Definition fileWatcher_ignored : list string :=
  ["node_modules"; "elm-stuff"; ".*"; "**/ElmjutsuDumMyM0DuL3.elm"].

Definition fileWatcher_add (g : nat) (G : Generation) (absolutePath : string) : M unit :=
  let relativePath := makePathOsAgnostic (path_relative absolutePath) in
  emit (DebugLog ("File " +:+ Anonymize_path (options G) relativePath +:+ " has been added"));;
  cached ← AppState_getFileFromMemoryCache relativePath;
  let isNewFile := bool_decide (cached = None) in
  elmFile ← match cached with
            | Some r => mret r
            | None => new_ElmFile (mkElmFile relativePath EmptyString None)
            end;
  emit (FsReadFile relativePath);;
  await g (FileAddAwaitRead relativePath elmFile isNewFile).

(** After [await FS.readFile]: lines 186 to 197. *)
Definition fileWatcher_add_read (g : nat) (elmFile : nat) (isNewFile : bool)
    (newSource : string) : M unit :=
  f ← deref elmFile;
  match f with
  | Some f =>
      when (bool_decide (source f ≠ newSource))
        (assign elmFile (mkElmFile (path f) newSource None));;
      when isNewFile (AppState_filesWereUpdated [elmFile]);;
      emit (CollectFile g elmFile);;
      call_runReview g
  | None => mret tt
  end.

Definition fileWatcher_change (g : nat) (absolutePath : string) : M unit :=
  let relativePath := makePathOsAgnostic (path_relative absolutePath) in
  cached ← AppState_getFileFromMemoryCache relativePath;
  elmFile ← match cached with
            | Some r => mret r
            | None => new_ElmFile (mkElmFile relativePath EmptyString None)
            end;
  emit (FsReadFile relativePath);;
  await g (FileChangeAwaitRead relativePath elmFile).

(** After [await FS.readFile]: lines 215 to 225. *)
Definition fileWatcher_change_read (g : nat) (relativePath : string)
    (elmFile : nat) (newSource : string) : M unit :=
  s ← get_process;
  match generations s !! g, heap s !! elmFile with
  | Some G, Some f =>
      when (bool_decide (source f ≠ newSource))
        (emit (DebugLog ("File " +:+ Anonymize_path (options G) relativePath
                         +:+ " has been changed"));;
         assign elmFile (mkElmFile (path f) newSource None);;
         emit (CollectFile g elmFile);;
         call_runReview g)
  | _, _ => mret tt
  end.

Definition fileWatcher_unlink (g : nat) (G : Generation) (absolutePath : string) : M unit :=
  let relativePath := makePathOsAgnostic (path_relative absolutePath) in
  emit (DebugLog ("File " +:+ Anonymize_path (options G) relativePath +:+ " has been removed"));;
  emit (RemoveFile g relativePath);;
  call_runReview g.

(** *** [suppressedErrorsWatcher] *)

Definition updateSuppressedErrors (g : nat) (G : Generation) : M unit :=
  match suppressedErrorsTimeout G with
  | Some id => clearTimeout (Some id)
  | None => mret tt
  end;;
  id ← setTimeout g 20;
  update_generation g (set_suppressedErrorsTimeout (Some id)).

(** The callback given to [setTimeout], up to its [await]. *)
Definition suppressedErrorsTimeout_fires (g : nat) : M unit :=
  emit (SuppressedErrorsRead g);;
  await g SuppressedErrorsAwaitRead.

Definition suppressedErrorsTimeout_read (g : nat) (suppressedErrors : Json) : M unit :=
  emit (DebugLog "Suppressed errors have been added");;
  emit (UpdateSuppressedErrors g suppressedErrors).

(** *** [configurationWatcher] *)

Definition configurationWatcher_change (g : nat) : M unit :=
  emit (Close g ConfigurationFiles);;
  await g ConfigurationAwaitClose.

(** After [await configurationWatcher.close()]: lines 322 to 332, with
    the callback received as [rebuildAndRewatch]. *)
Definition configurationWatcher_change_closed (g : nat) (rebuildAndRewatch : M unit) : M unit :=
  s ← get_process;
  match generations s !! g with
  | Some G =>
      when (bool_decide (report (options G) ≠ "json"))
        (when (negb (debug (options G))) clearConsole;;
         emit (ConsoleLog
                 "Your configuration has changed. Restarting elm-review with the new one."));;
      rebuildAndRewatch
  | None => mret tt
  end.

(** The callback that [watchFiles] gives to [watchConfiguration]:
    lines 275 to 287, up to its [await]. *)
Definition watchFiles_restart (g : nat) : M unit :=
  s ← get_process;
  match generations s !! g with
  | Some G =>
      update_generation g (set_runReview DoesNothing);;
      clearTimeout (suppressedErrorsTimeout G);;
      emit (Close g Manifest);;
      close_if_present (readmeWatcher G) g ReadmeFile;;
      emit (Close g SourceFiles);;
      emit (Close g SuppressionFolder);;
      await g RestartAwaitClose
  | None => mret tt
  end.

Definition watchFiles_restart_closed (g : nat) : M unit :=
  emit (RebuildAndRewatch g).

(** [watchConfiguration], called for generation [g]. *)
Definition watchConfiguration (g : nat) (opts : Options) (reviewElmJson : list string)
    (reviewElmJsonPath : option string) : M (option Watcher) :=
  match reviewElmJsonPath with
  | Some p =>
      if bool_decide (p = EmptyString) || negb (watchConfig opts) then mret None
      else
        let configurationPaths :=
          map makePathOsAgnostic
              (map (λ directory, path_resolve (userSrc opts) directory +:+ "/**/*.elm")
                   reviewElmJson
               ++ [p]) in
        let w := mkWatcher configurationPaths [] true in
        emit (ChokidarWatch g ConfigurationFiles w);;
        mret (Some w)
  | None => mret None
  end.

(** The objects of [elmFiles], as the caller holds them. *)
Fixpoint objects_of (files : list ElmFile) : M (list nat) :=
  match files with
  | [] => mret []
  | f :: rest => r ← new_ElmFile f; rs ← objects_of rest; mret (r :: rs)
  end.

Definition watchFiles (opts : Options) (wopts : WatchOptions) : M unit :=
  s ← get_process;
  let g := length (generations s) in
  files ← objects_of (elmFiles wopts);
  AppState_filesWereUpdated files;;
  flushing ← (λ s, (isFlushingStdio s, s, []));
  when (negb flushing)
    (emit StdinOnReadable;; modify (set_isFlushingStdio true));;
  let elmJsonWatcher := mkWatcher [makePathOsAgnostic (elmJsonPath opts)] [] true in
  emit (ChokidarWatch g Manifest elmJsonWatcher);;
  readmeWatcher ← match readmePath opts with
                  | None => mret None
                  | Some readmePath =>
                      let w := mkWatcher [makePathOsAgnostic readmePath] [] true in
                      emit (ChokidarWatch g ReadmeFile w);; mret (Some w)
                  end;
  let fileWatcher :=
    mkWatcher (map (λ directory, makePathOsAgnostic (directory +:+ "/**/*.elm"))
                   (sourceDirectories wopts))
              fileWatcher_ignored true in
  emit (ChokidarWatch g SourceFiles fileWatcher);;
  let suppressedErrorsWatcher :=
    mkWatcher [makePathOsAgnostic (suppressedErrorsFolder opts +:+ "/*.json")] [] true in
  emit (ChokidarWatch g SuppressionFolder suppressedErrorsWatcher);;
  configurationWatcher ← watchConfiguration g opts (reviewElmJson_sourceDirectories wopts)
                                              (reviewElmJsonPath wopts);
  modify (λ s, set_generations
                 (generations s ++
                  [mkGeneration opts (elmJsonData_project wopts) ForwardsToRunner None
                                elmJsonWatcher readmeWatcher fileWatcher
                                suppressedErrorsWatcher configurationWatcher]) s).

(** ** The event loop *)

(** A watcher emits [add], [change] or [unlink]: the listener registered
    with [.on], if there is one.  Whether the watcher is still open is
    not looked at. *)
Definition deliver (g : nat) (t : Target) (k : EventKind) (absolutePath : string) : M unit :=
  s ← get_process;
  match generations s !! g with
  | Some G =>
      match t, k with
      | Manifest, Change => elmJsonWatcher_change g G
      | ReadmeFile, Add =>
          match readmeWatcher G, readmePath (options G) with
          | Some _, Some p => readmeWatcher_add g p
          | _, _ => mret tt
          end
      | ReadmeFile, Change =>
          match readmeWatcher G, readmePath (options G) with
          | Some _, Some p => readmeWatcher_change g p
          | _, _ => mret tt
          end
      | SourceFiles, Add => fileWatcher_add g G absolutePath
      | SourceFiles, Change => fileWatcher_change g absolutePath
      | SourceFiles, Unlink => fileWatcher_unlink g G absolutePath
      | SuppressionFolder, _ => updateSuppressedErrors g G
      | ConfigurationFiles, Change =>
          match configurationWatcher G with
          | Some _ => configurationWatcher_change g
          | None => mret tt
          end
      | _, _ => mret tt
      end
  | None => mret tt
  end.

(** A watcher emits [error].  [readmeWatcher], [fileWatcher] and
    [suppressedErrorsWatcher] registered [onError]; [elmJsonWatcher] and
    [configurationWatcher] registered no listener for it, and an
    [EventEmitter] of Node throws an [error] event nobody listens to. *)
Definition deliver_error (g : nat) (t : Target) (err : string) : M unit :=
  s ← get_process;
  match generations s !! g with
  | Some G =>
      match t with
      | Manifest => emit (UncaughtError g Manifest err)
      | ReadmeFile =>
          match readmeWatcher G with
          | Some _ => emit (OnError g err)
          | None => mret tt
          end
      | SourceFiles => emit (OnError g err)
      | SuppressionFolder => emit (OnError g err)
      | ConfigurationFiles =>
          match configurationWatcher G with
          | Some _ => emit (UncaughtError g ConfigurationFiles err)
          | None => mret tt
          end
      end
  | None => mret tt
  end.

(** The continuation of a suspended handler, when the promise resolves
    with a value of the awaited kind. *)
Definition resume (g : nat) (t : Task) (v : Value) : option (M unit) :=
  match t, v with
  | ElmJsonAwaitRead, VJson newValue => Some (elmJsonWatcher_change_read g newValue)
  | ElmJsonAwaitClose, VUnit => Some (elmJsonWatcher_change_closed g)
  | ReadmeAddAwaitRead p, VString content => Some (readmeWatcher_add_read g p content)
  | ReadmeChangeAwaitRead p, VString content => Some (readmeWatcher_change_read g p content)
  | FileAddAwaitRead _ elmFile isNewFile, VString newSource =>
      Some (fileWatcher_add_read g elmFile isNewFile newSource)
  | FileChangeAwaitRead relativePath elmFile, VString newSource =>
      Some (fileWatcher_change_read g relativePath elmFile newSource)
  | SuppressedErrorsAwaitRead, VJson suppressedErrors =>
      Some (suppressedErrorsTimeout_read g suppressedErrors)
  | ConfigurationAwaitClose, VUnit =>
      Some (configurationWatcher_change_closed g (watchFiles_restart g))
  | RestartAwaitClose, VUnit => Some (watchFiles_restart_closed g)
  | _, _ => None
  end.

Definition resolve (n : nat) (v : Value) : M unit :=
  s ← get_process;
  match pending s !! n with
  | Some (g, t) =>
      match resume g t v with
      | Some k => modify (λ s, set_pending (delete n (pending s)) s);; k
      | None => mret tt
      end
  | None => mret tt
  end.

(** The clock advances by [ms]: the timers that are due fire, oldest
    first. *)
Definition elapse (ms : nat) : M unit :=
  s ← get_process;
  let t := now s + ms in
  modify (λ s, set_now t (set_timers (filter (λ x, ¬ (due x ≤ t)%nat) (timers s)) s));;
  for_each (filter (λ x, (due x ≤ t)%nat) (timers s))
           (λ x, suppressedErrorsTimeout_fires (timer_gen x)).

Definition step (i : Input) : M unit :=
  match i with
  | CallWatchFiles opts wopts => watchFiles opts wopts
  | Emit g t k absolutePath => deliver g t k absolutePath
  | EmitError g t err => deliver_error g t err
  | Resolve n v => resolve n v
  | Elapse ms => elapse ms
  end.

Definition run (inputs : list Input) : M unit := for_each inputs step.

(** State and calls after a run. *)
Definition state_after (inputs : list Input) (s : Process) : Process := (run inputs s).1.2.
Definition calls_of (inputs : list Input) (s : Process) : list Effect := (run inputs s).2.

(** ** What the file system tells [fileWatcher] *)

(** A file at path [p] is added, changed or removed: [fileWatcher] of
    generation [g] emits the event when it reports the path. *)
Definition fileWatcher_notified (g : nat) (k : EventKind) (p : string) : M unit :=
  s ← get_process;
  match generations s !! g with
  | Some G => when (reports (fileWatcher G) p) (deliver g SourceFiles k p)
  | None => mret tt
  end.



(** ** Definitions used to state the properties *)

(** What a call [runReview()] amounts to in generation [G]. *)
Definition runReview_calls (g : nat) (G : Generation) : list Effect :=
  match runReview G with
  | ForwardsToRunner => [RequestReview g]
  | DoesNothing => []
  end.

(** The path under which [fileWatcher] handles a reported path. *)
Definition relativePath_of (absolutePath : string) : string :=
  makePathOsAgnostic (path_relative absolutePath).

(** The [close()] calls of a restart that [elmJsonWatcher] starts. *)
Definition elmJson_teardown (g : nat) (G : Generation) : list Effect :=
  [Close g Manifest]
  ++ (match readmeWatcher G with Some _ => [Close g ReadmeFile] | None => [] end)
  ++ [Close g SourceFiles; Close g SuppressionFolder]
  ++ (match configurationWatcher G with
      | Some _ => [Close g ConfigurationFiles]
      | None => []
      end).

(** The [close()] calls of the callback given to [watchConfiguration]. *)
Definition restart_teardown (g : nat) (G : Generation) : list Effect :=
  [Close g Manifest]
  ++ (match readmeWatcher G with Some _ => [Close g ReadmeFile] | None => [] end)
  ++ [Close g SourceFiles; Close g SuppressionFolder].

(** Generation [g] after a restart began: reviews off, timer cancelled. *)
Definition restarting (g : nat) (G : Generation) (s : Process) : Process :=
  set_timers (match suppressedErrorsTimeout G with
              | Some i => filter (λ t, timer_id t ≠ i) (timers s)
              | None => timers s
              end)
    (set_generations (alter (set_runReview DoesNothing) g (generations s)) s).

(** Messages of [Debug.log] about a source file. *)
Definition file_message (G : Generation) (relativePath what : string) : string :=
  "File " +:+ Anonymize_path (options G) relativePath +:+ what.

(** [change] events for one path, each followed by the end of its read;
    [k] is the number of handlers suspended meanwhile. *)
Definition changes_of (g : nat) (p : string) (k : nat) (contents : list string) : list Input :=
  flat_map (λ c, [Emit g SourceFiles Change p; Resolve k (VString c)]) contents.

(** The calls of [changes_of] when every event notifies, the records
    being allocated from address [base] on. *)
Fixpoint renotified (g : nat) (G : Generation) (relativePath : string) (base : nat)
    (contents : list string) : list Effect :=
  match contents with
  | [] => []
  | c :: rest =>
      [FsReadFile relativePath;
       DebugLog (file_message G relativePath " has been changed");
       CollectFile g base]
      ++ runReview_calls g G
      ++ renotified g G relativePath (S base) rest
  end.

(** The console output before a restart, for the message [msg]. *)
Definition restart_notice (G : Generation) (msg : Effect) : list Effect :=
  if bool_decide (report (options G) ≠ "json")
  then (if debug (options G) then [] else [ClearConsole]) ++ [msg]
  else [].

(** Calls of the refresh of suppressed errors in generation [g]: the
    loader being read, and the data being sent to the engine. *)
Definition refresh_of (g : nat) (e : Effect) : bool :=
  match e with
  | SuppressedErrorsRead g' => bool_decide (g' = g)
  | UpdateSuppressedErrors g' _ => bool_decide (g' = g)
  | _ => false
  end.

(** Suspended timer callbacks of generation [g]: loader reads under way. *)
Definition reads_suppressedErrors (g : nat) (x : nat * Task) : bool :=
  match x with
  | (g', SuppressedErrorsAwaitRead) => bool_decide (g' = g)
  | _ => false
  end.

(** An event of the suppression folder of generation [g]. *)
Definition is_suppression_event (g : nat) (i : Input) : bool :=
  match i with
  | Emit g' SuppressionFolder _ _ => bool_decide (g' = g)
  | _ => false
  end.

(** The timers of generation [g] that have not fired. *)
Definition armed (g : nat) (s : Process) : list Timer :=
  filter (λ t, timer_gen t = g) (timers s).

(** The variable [suppressedErrorsTimeout] of generation [g] names every
    timer of [g] that has not fired. *)
Definition timer_tracked (g : nat) (s : Process) : Prop :=
  ∃ G, generations s !! g = Some G
       ∧ ∀ t, t ∈ armed g s → suppressedErrorsTimeout G = Some (timer_id t).

(** Events of the suppression folder, each followed by the time that
    passes before the next one. *)
Definition burst (g : nat) (events : list (EventKind * string * nat)) : list Input :=
  flat_map (λ e, [Emit g SuppressionFolder e.1.1 e.1.2; Elapse e.2]) events.

(** The cache after [filesWereUpdated] on the objects [rs] of heap [h]. *)
Definition registered (h : list ElmFile) (c : gmap string nat) (rs : list nat)
    : gmap string nat :=
  foldl (λ c r, match h !! r with Some f => <[path f := r]> c | None => c end) c rs.

(** The watchers one call of [watchFiles] creates, and the generation
    they form. *)
Definition configurationWatcher_of (opts : Options) (wopts : WatchOptions) : option Watcher :=
  match reviewElmJsonPath wopts with
  | Some p =>
      if bool_decide (p = EmptyString) || negb (watchConfig opts) then None
      else Some (mkWatcher
                   (map makePathOsAgnostic
                      (map (λ directory, path_resolve (userSrc opts) directory +:+ "/**/*.elm")
                           (reviewElmJson_sourceDirectories wopts)
                       ++ [p]))
                   [] true)
  | None => None
  end.

Definition fileWatcher_of (wopts : WatchOptions) : Watcher :=
  mkWatcher (map (λ directory, makePathOsAgnostic (directory +:+ "/**/*.elm"))
                 (sourceDirectories wopts))
            fileWatcher_ignored true.

Definition new_generation (opts : Options) (wopts : WatchOptions) : Generation :=
  mkGeneration opts (elmJsonData_project wopts) ForwardsToRunner None
    (mkWatcher [makePathOsAgnostic (elmJsonPath opts)] [] true)
    (match readmePath opts with
     | Some readmePath => Some (mkWatcher [makePathOsAgnostic readmePath] [] true)
     | None => None
     end)
    (fileWatcher_of wopts)
    (mkWatcher [makePathOsAgnostic (suppressedErrorsFolder opts +:+ "/*.json")] [] true)
    (configurationWatcher_of opts wopts).

Definition watchFiles_calls (g : nat) (opts : Options) (wopts : WatchOptions)
    (flushing : bool) : list Effect :=
  (if flushing then [] else [StdinOnReadable])
  ++ [ChokidarWatch g Manifest (elmJsonWatcher (new_generation opts wopts))]
  ++ match readmeWatcher (new_generation opts wopts) with
     | Some w => [ChokidarWatch g ReadmeFile w]
     | None => []
     end
  ++ [ChokidarWatch g SourceFiles (fileWatcher_of wopts);
      ChokidarWatch g SuppressionFolder (suppressedErrorsWatcher (new_generation opts wopts))]
  ++ match configurationWatcher_of opts wopts with
     | Some w => [ChokidarWatch g ConfigurationFiles w]
     | None => []
     end.

Definition is_StdinOnReadable (e : Effect) : bool :=
  match e with StdinOnReadable => true | _ => false end.

Definition is_CallWatchFiles (i : Input) : bool :=
  match i with CallWatchFiles _ _ => true | _ => false end.

(** What a step may do to the closure of a generation: the watchers and
    the options stay, and [runReview], once rebound, stays rebound. *)
Definition later_closure (G G' : Generation) : Prop :=
  options G' = options G
  ∧ fileWatcher G' = fileWatcher G
  ∧ readmeWatcher G' = readmeWatcher G
  ∧ configurationWatcher G' = configurationWatcher G
  ∧ (runReview G = DoesNothing → runReview G' = DoesNothing).

(** Every timer that has not fired is the one its generation holds in
    [suppressedErrorsTimeout]. *)
Definition timers_tracked (s : Process) : Prop :=
  ∀ t, t ∈ timers s →
       ∃ G, generations s !! timer_gen t = Some G
            ∧ suppressedErrorsTimeout G = Some (timer_id t).

(** A record later in the run: same path, and either the same record or
    one whose parsed form was reset. *)
Definition later_record (f f' : ElmFile) : Prop :=
  path f' = path f ∧ (f' = f ∨ ast f' = None).

(** A heap later in the run: every record is still at its address. *)
Definition later_heap (h h' : list ElmFile) : Prop :=
  ∀ r f, h !! r = Some f → ∃ f', h' !! r = Some f' ∧ later_record f f'.

(** Every entry of the cache is the address of a record of the heap, and
    the key is the path of that record. *)
Definition cache_consistent (s : Process) : Prop :=
  ∀ p r, filesInMemoryCache s !! p = Some r →
         ∃ f, heap s !! r = Some f ∧ path f = p.

(** What a step may add to the cache: entries for records of the heap,
    under their paths. *)
Definition later_cache (s s' : Process) : Prop :=
  ∀ p r, filesInMemoryCache s' !! p = Some r →
         filesInMemoryCache s !! p = Some r
         ∨ ∃ f, heap s' !! r = Some f ∧ path f = p.

(** A suspended restart: the watchers are being closed. *)
Definition awaits_close (t : Task) : Prop :=
  t = ElmJsonAwaitClose ∨ t = RestartAwaitClose.

(** Every suspended restart belongs to a generation whose [runReview]
    was rebound. *)
Definition restarts_are_disabled (s : Process) : Prop :=
  ∀ g t, (g, t) ∈ pending s → awaits_close t →
         ∃ G, generations s !! g = Some G ∧ runReview G = DoesNothing.

(** Timer identifiers are handed out once. *)
Definition timers_fresh (s : Process) : Prop :=
  NoDup (timer_id <$> timers s) ∧ ∀ t, t ∈ timers s → (timer_id t < nextTimer s)%nat.

(** ** Proof tools *)

Ltac munfold :=
  unfold mbind, M_bind, mret, M_ret, get_process, modify, emit, when, await,
    update_generation, deref, assign, new_ElmFile, clearTimeout, setTimeout,
    close_if_present, clearConsole,
    AppState_getFileFromMemoryCache, AppState_readmeChanged in *.

Ltac hunfold :=
  unfold run, step, deliver, deliver_error, resolve, resume,
    elmJsonWatcher_change, elmJsonWatcher_change_read, elmJsonWatcher_change_closed,
    readmeWatcher_add, readmeWatcher_add_read, readmeWatcher_change,
    readmeWatcher_change_read, fileWatcher_add, fileWatcher_add_read,
    fileWatcher_change, fileWatcher_change_read, fileWatcher_unlink,
    updateSuppressedErrors, suppressedErrorsTimeout_fires, suppressedErrorsTimeout_read,
    configurationWatcher_change, configurationWatcher_change_closed,
    watchFiles_restart, watchFiles_restart_closed, call_runReview in *.

(** Case analysis on the innermost scrutinee of the goal. *)
Ltac split_match :=
  match goal with
  | |- context [match ?x with _ => _ end] =>
      lazymatch x with
      | context [match _ with _ => _ end] => fail
      | _ => destruct x eqn:?
      end
  end.

Lemma delete_last_task (l : list (nat * Task)) (x : nat * Task) :
  delete (length l) (l ++ [x]) = l.
Proof. induction l as [|y l IH]; cbn; [done | by f_equal]. Qed.

Lemma lookup_last_task (l : list (nat * Task)) (x : nat * Task) :
  (l ++ [x]) !! length l = Some x.
Proof. induction l as [|y l IH]; cbn; done. Qed.

Lemma lookup_fresh_generation (l : list Generation) (G : Generation) :
  (l ++ [G]) !! length l = Some G.
Proof. induction l as [|x l IH]; cbn; done. Qed.

Lemma call_runReview_calls (s : Process) (g : nat) (G : Generation) :
  generations s !! g = Some G →
  call_runReview g s = (tt, s, runReview_calls g G).
Proof.
  intros Hg. unfold call_runReview, runReview_calls. munfold. rewrite Hg.
  by destruct (runReview G).
Qed.

(** ** The manifest *)

(** What the comparison of line 71 decides: the serialisations. *)
Lemma elmJson_same_serialisation (s : Process) (n g : nat) (G : Generation) (newValue : Json) :
  pending s !! n = Some (g, ElmJsonAwaitRead) →
  generations s !! g = Some G →
  JSON_stringify newValue = JSON_stringify (elmJsonContent G) →
  step (Resolve n (VJson newValue)) s = (tt, set_pending (delete n (pending s)) s, []).
Proof.
  intros Hn Hg Heq. hunfold. munfold. rewrite Hn. cbn. rewrite Hg.
  by rewrite bool_decide_eq_false_2 by (intros H; by apply H).
Qed.

(** C5, as the code has it.  A [change] of the manifest reads and parses
    the file, and line 71 compares the serialisation of the parsed value
    with the serialisation of the cached [elmJsonContent].  When the two
    serialisations are equal nothing else happens: no call is made (no
    [close()], no [rebuildAndRewatch()]), and [elmJsonContent],
    [runReview] and the timers stay as they were; the whole process is
    back in the state it had before the event.  A value that serialises
    differently is not ignored. *)
Theorem elmJson_unchanged_is_ignored
    (s : Process) (n g : nat) (G : Generation) (p : string) (newValue : Json) :
  generations s !! g = Some G →
  JSON_stringify newValue = JSON_stringify (elmJsonContent G) →
  step (Emit g Manifest Change p) s
  = (tt, set_pending (pending s ++ [(g, ElmJsonAwaitRead)]) s,
     [FsReadJsonFile (elmJsonPath (options G))])
  ∧ (pending s !! n = Some (g, ElmJsonAwaitRead) →
     step (Resolve n (VJson newValue)) s = (tt, set_pending (delete n (pending s)) s, []))
  ∧ run [Emit g Manifest Change p; Resolve (length (pending s)) (VJson newValue)] s
    = (tt, s, [FsReadJsonFile (elmJsonPath (options G))])
  ∧ (∀ other, pending s !! n = Some (g, ElmJsonAwaitRead) →
       JSON_stringify other ≠ JSON_stringify (elmJsonContent G) →
       (step (Resolve n (VJson other)) s).2 = elmJson_teardown g G).
Proof.
  intros Hg Heq.
  assert (Hev : step (Emit g Manifest Change p) s
                = (tt, set_pending (pending s ++ [(g, ElmJsonAwaitRead)]) s,
                   [FsReadJsonFile (elmJsonPath (options G))])).
  { hunfold. munfold. by rewrite Hg. }
  split; [exact Hev|]. split; [|split].
  - intros Hn. by eapply elmJson_same_serialisation.
  - unfold run, for_each. unfold mbind at 1 2, M_bind. rewrite Hev.
    rewrite (elmJson_same_serialisation _ (length (pending s)) g G); cbn;
      [| apply lookup_last_task | exact Hg | exact Heq].
    rewrite delete_last_task. by destruct s.
  - intros other Hn Hne. hunfold. munfold. rewrite Hn. cbn. rewrite Hg.
    rewrite bool_decide_eq_true_2 by done. unfold elmJson_teardown.
    by destruct (suppressedErrorsTimeout G), (readmeWatcher G), (configurationWatcher G).
Qed.

(** ** Source files *)

Lemma fileWatcher_change_known (s : Process) (g : nat) (G : Generation) (p : string) (r : nat) :
  generations s !! g = Some G →
  filesInMemoryCache s !! relativePath_of p = Some r →
  step (Emit g SourceFiles Change p) s
  = (tt, set_pending (pending s ++ [(g, FileChangeAwaitRead (relativePath_of p) r)]) s,
     [FsReadFile (relativePath_of p)]).
Proof.
  intros Hg Hc. unfold relativePath_of in *. hunfold. munfold. rewrite Hg. cbn.
  by rewrite Hc.
Qed.

Lemma fileWatcher_change_same (s : Process) (n g r : nat) (G : Generation)
    (rel : string) (f : ElmFile) :
  pending s !! n = Some (g, FileChangeAwaitRead rel r) →
  generations s !! g = Some G →
  heap s !! r = Some f →
  step (Resolve n (VString (source f))) s = (tt, set_pending (delete n (pending s)) s, []).
Proof.
  intros Hn Hg Hr. hunfold. munfold. rewrite Hn. cbn. rewrite Hg, Hr.
  by rewrite bool_decide_eq_false_2 by (intros H; by apply H).
Qed.

Lemma fileWatcher_change_differs (s : Process) (n g r : nat) (G : Generation)
    (rel newSource : string) (f : ElmFile) :
  pending s !! n = Some (g, FileChangeAwaitRead rel r) →
  generations s !! g = Some G →
  heap s !! r = Some f →
  source f ≠ newSource →
  step (Resolve n (VString newSource)) s
  = (tt,
     set_heap (<[r := mkElmFile (path f) newSource None]> (heap s))
       (set_pending (delete n (pending s)) s),
     [DebugLog (file_message G rel " has been changed"); CollectFile g r]
     ++ runReview_calls g G).
Proof.
  intros Hn Hg Hr Hne. hunfold. munfold. rewrite Hn. cbn. rewrite Hg, Hr.
  rewrite bool_decide_eq_true_2 by done. cbn. rewrite Hg.
  unfold runReview_calls, file_message. by destruct (runReview G).
Qed.


Lemma fileWatcher_change_unknown (s : Process) (g : nat) (G : Generation) (p : string) :
  generations s !! g = Some G →
  filesInMemoryCache s !! relativePath_of p = None →
  step (Emit g SourceFiles Change p) s
  = (tt,
     set_pending (pending s ++ [(g, FileChangeAwaitRead (relativePath_of p) (length (heap s)))])
       (set_heap (heap s ++ [mkElmFile (relativePath_of p) EmptyString None]) s),
     [FsReadFile (relativePath_of p)]).
Proof.
  intros Hg Hc. unfold relativePath_of in *. hunfold. munfold. rewrite Hg. cbn.
  by rewrite Hc.
Qed.

Lemma lookup_fresh_record (h : list ElmFile) (f : ElmFile) : (h ++ [f]) !! length h = Some f.
Proof. induction h as [|x h IH]; cbn; done. Qed.

Lemma insert_fresh_record (h : list ElmFile) (f f' : ElmFile) :
  <[length h := f']> (h ++ [f]) = h ++ [f'].
Proof. induction h as [|x h IH]; cbn; [done | by f_equal]. Qed.

(** One [change] of a path the cache does not know, with its read. *)
Lemma change_of_unknown_path_once (s : Process) (g : nat) (G : Generation) (p c : string) :
  generations s !! g = Some G →
  filesInMemoryCache s !! relativePath_of p = None →
  c ≠ EmptyString →
  run [Emit g SourceFiles Change p; Resolve (length (pending s)) (VString c)] s
  = (tt, set_heap (heap s ++ [mkElmFile (relativePath_of p) c None]) s,
     [FsReadFile (relativePath_of p);
      DebugLog (file_message G (relativePath_of p) " has been changed");
      CollectFile g (length (heap s))]
     ++ runReview_calls g G).
Proof.
  intros Hg Hc Hne. unfold run, for_each. unfold mbind at 1 2, M_bind.
  rewrite (fileWatcher_change_unknown s g G p Hg Hc).
  rewrite (fileWatcher_change_differs _ (length (pending s)) g (length (heap s)) G
             (relativePath_of p) c (mkElmFile (relativePath_of p) EmptyString None));
    cbn; [| apply lookup_last_task | exact Hg | apply lookup_fresh_record | congruence].
  rewrite delete_last_task, insert_fresh_record, app_nil_r. by destruct s.
Qed.

Lemma run_app (i1 i2 : list Input) (s : Process) :
  run (i1 ++ i2) s
  = let '(_, s1, c1) := run i1 s in let '(_, s2, c2) := run i2 s1 in (tt, s2, c1 ++ c2).
Proof.
  revert s. induction i1 as [|i i1 IH]; intros s; cbn.
  - unfold run. by destruct (for_each i2 step s) as [[[] ?] ?].
  - unfold run in *. cbn. unfold mbind, M_bind.
    destruct (step i s) as [[[] s1] c1]. rewrite IH.
    destruct (for_each i1 step s1) as [[[] s2] c2].
    destruct (for_each i2 step s2) as [[[] s3] c3]. by rewrite app_assoc.
Qed.

(** C9.  The handler of [change] never writes to [filesInMemoryCache],
    neither when the event arrives nor when its read ends.  So for a path
    the cache does not know, each [change] with a content that is not
    empty builds a record of its own, fills it, sends it and calls
    [runReview()]; the cache stays as it was, and the next [change]
    does the same again, whether or not the content is new. *)
Theorem change_of_unknown_path_never_caches
    (s : Process) (g : nat) (G : Generation) (p : string) (contents : list string) :
  generations s !! g = Some G →
  filesInMemoryCache s !! relativePath_of p = None →
  Forall (λ c, c ≠ EmptyString) contents →
  (∀ s0 g0 p0, filesInMemoryCache (step (Emit g0 SourceFiles Change p0) s0).1.2
               = filesInMemoryCache s0)
  ∧ (∀ s0 n g0 rel r v, pending s0 !! n = Some (g0, FileChangeAwaitRead rel r) →
       filesInMemoryCache (step (Resolve n v) s0).1.2 = filesInMemoryCache s0)
  ∧ run (changes_of g p (length (pending s)) contents) s
    = (tt,
       set_heap (heap s ++ map (λ c, mkElmFile (relativePath_of p) c None) contents) s,
       renotified g G (relativePath_of p) (length (heap s)) contents).
Proof.
  intros Hg Hc Hall. split; [|split].
  - intros s0 g0 p0. hunfold. munfold.
    destruct (generations s0 !! g0); cbn; [|done].
    by destruct (filesInMemoryCache s0 !! _).
  - intros s0 n g0 rel r v Hn. hunfold. munfold. rewrite Hn.
    destruct v as [| newSource |]; cbn; try done.
    destruct (generations s0 !! g0) as [G0|] eqn:Hg0; cbn; [|done].
    destruct (heap s0 !! r) as [f|]; cbn; [|done].
    destruct (bool_decide _); cbn; [|done].
    rewrite Hg0. by destruct (runReview G0).
  - revert s Hg Hc. induction Hall as [|c rest Hne Hrest IH]; intros s Hg Hc.
    + cbn. rewrite app_nil_r. by destruct s.
    + change (changes_of g p (length (pending s)) (c :: rest))
        with ([Emit g SourceFiles Change p; Resolve (length (pending s)) (VString c)]
              ++ changes_of g p (length (pending s)) rest).
      rewrite run_app, (change_of_unknown_path_once s g G p c Hg Hc Hne).
      specialize (IH (set_heap (heap s ++ [mkElmFile (relativePath_of p) c None]) s) Hg Hc).
      cbn in IH. rewrite IH. cbn. rewrite length_app. cbn.
      rewrite Nat.add_1_r, <- app_assoc. by destruct s.
Qed.

Lemma fileWatcher_unlink_calls (s : Process) (g : nat) (G : Generation) (p : string) :
  generations s !! g = Some G →
  step (Emit g SourceFiles Unlink p) s
  = (tt, s,
     [DebugLog (file_message G (relativePath_of p) " has been removed");
      RemoveFile g (relativePath_of p)]
     ++ runReview_calls g G).
Proof.
  intros Hg. unfold relativePath_of, file_message, runReview_calls. hunfold. munfold.
  rewrite Hg. cbn. rewrite Hg. by destruct (runReview G).
Qed.

Lemma fileWatcher_add_known (s : Process) (g r : nat) (G : Generation) (p : string) :
  generations s !! g = Some G →
  filesInMemoryCache s !! relativePath_of p = Some r →
  step (Emit g SourceFiles Add p) s
  = (tt, set_pending (pending s ++ [(g, FileAddAwaitRead (relativePath_of p) r false)]) s,
     [DebugLog (file_message G (relativePath_of p) " has been added");
      FsReadFile (relativePath_of p)]).
Proof.
  intros Hg Hc. unfold relativePath_of, file_message in *. hunfold. munfold.
  rewrite Hg. cbn. by rewrite Hc.
Qed.

Lemma fileWatcher_add_read_known (s : Process) (n g r : nat) (G : Generation)
    (rel newSource : string) (f : ElmFile) :
  pending s !! n = Some (g, FileAddAwaitRead rel r false) →
  generations s !! g = Some G →
  heap s !! r = Some f →
  step (Resolve n (VString newSource)) s
  = (tt,
     (if bool_decide (source f ≠ newSource)
      then set_heap (<[r := mkElmFile (path f) newSource None]> (heap s))
             (set_pending (delete n (pending s)) s)
      else set_pending (delete n (pending s)) s),
     CollectFile g r :: runReview_calls g G).
Proof.
  intros Hn Hg Hr. hunfold. munfold. rewrite Hn. cbn. rewrite Hr.
  unfold runReview_calls.
  destruct (bool_decide (source f ≠ newSource)); cbn; rewrite Hg;
    by destruct (runReview G).
Qed.

(** C10.  An [unlink] sends [removeFile] and calls [runReview()], and
    leaves the process, cache included, as it was.  When the cache holds
    a record for the path, an [add] that follows finds it ([isNewFile] is
    false), compares the content read with the [source] of that record,
    and does not call [filesWereUpdated]: [filesInMemoryCache] is still
    the same map afterwards. *)
Theorem unlink_keeps_the_cached_record
    (s : Process) (g r : nat) (G : Generation) (p newSource : string) (f : ElmFile) :
  generations s !! g = Some G →
  filesInMemoryCache s !! relativePath_of p = Some r →
  heap s !! r = Some f →
  step (Emit g SourceFiles Unlink p) s
  = (tt, s,
     [DebugLog (file_message G (relativePath_of p) " has been removed");
      RemoveFile g (relativePath_of p)]
     ++ runReview_calls g G)
  ∧ (step (Emit g SourceFiles Add p) s).1.2
    = set_pending (pending s ++ [(g, FileAddAwaitRead (relativePath_of p) r false)]) s
  ∧ run [Emit g SourceFiles Unlink p; Emit g SourceFiles Add p;
         Resolve (length (pending s)) (VString newSource)] s
    = (tt,
       (if bool_decide (source f ≠ newSource)
        then set_heap (<[r := mkElmFile (path f) newSource None]> (heap s)) s
        else s),
       [DebugLog (file_message G (relativePath_of p) " has been removed");
        RemoveFile g (relativePath_of p)]
       ++ runReview_calls g G
       ++ [DebugLog (file_message G (relativePath_of p) " has been added");
           FsReadFile (relativePath_of p);
           CollectFile g r]
       ++ runReview_calls g G).
Proof.
  intros Hg Hc Hr.
  pose proof (fileWatcher_unlink_calls s g G p Hg) as Hun.
  pose proof (fileWatcher_add_known s g r G p Hg Hc) as Hadd.
  split; [exact Hun|]. split; [by rewrite Hadd|].
  unfold run, for_each. unfold mbind at 1 2 3, M_bind. rewrite Hun, Hadd.
  rewrite (fileWatcher_add_read_known _ (length (pending s)) g r G (relativePath_of p)
             newSource f); cbn; [| apply lookup_last_task | exact Hg | exact Hr].
  rewrite delete_last_task, app_nil_r.
  rewrite <- ?app_assoc.
  by destruct (bool_decide (source f ≠ newSource)); destruct s.
Qed.

(** ** Restarts *)

Lemma elmJson_restart_begins (s : Process) (n g : nat) (G : Generation) (newValue : Json) :
  pending s !! n = Some (g, ElmJsonAwaitRead) →
  generations s !! g = Some G →
  JSON_stringify newValue ≠ JSON_stringify (elmJsonContent G) →
  step (Resolve n (VJson newValue)) s
  = (tt,
     set_pending (delete n (pending s) ++ [(g, ElmJsonAwaitClose)])
       (restarting g G
          (set_generations (alter (set_elmJsonContent newValue) g (generations s)) s)),
     elmJson_teardown g G).
Proof.
  intros Hn Hg Hne. hunfold. munfold. rewrite Hn. cbn. rewrite Hg.
  rewrite bool_decide_eq_true_2 by done. unfold elmJson_teardown, restarting.
  destruct (suppressedErrorsTimeout G), (readmeWatcher G), (configurationWatcher G);
    destruct s; reflexivity.
Qed.

Lemma configurationWatcher_closes_itself (s : Process) (g : nat) (G : Generation)
    (w : Watcher) (p : string) :
  generations s !! g = Some G →
  configurationWatcher G = Some w →
  step (Emit g ConfigurationFiles Change p) s
  = (tt, set_pending (pending s ++ [(g, ConfigurationAwaitClose)]) s,
     [Close g ConfigurationFiles]).
Proof. intros Hg Hw. hunfold. munfold. by rewrite Hg, Hw. Qed.

Lemma configuration_restart_begins (s : Process) (n g : nat) (G : Generation) :
  pending s !! n = Some (g, ConfigurationAwaitClose) →
  generations s !! g = Some G →
  step (Resolve n VUnit) s
  = (tt,
     set_pending (delete n (pending s) ++ [(g, RestartAwaitClose)]) (restarting g G s),
     restart_notice G
       (ConsoleLog "Your configuration has changed. Restarting elm-review with the new one.")
     ++ restart_teardown g G).
Proof.
  intros Hn Hg. hunfold. munfold. rewrite Hn. cbn. rewrite Hg.
  unfold restart_notice, restart_teardown, restarting.
  destruct (bool_decide (report (options G) ≠ "json")), (debug (options G));
    cbn; rewrite Hg;
    destruct (suppressedErrorsTimeout G), (readmeWatcher G); by destruct s.
Qed.

(** C2, as the code has it.  A restart that the manifest starts calls
    [close()] on [elmJsonWatcher], on [readmeWatcher] when there is one,
    on [fileWatcher], on [suppressedErrorsWatcher], and on
    [configurationWatcher] when there is one.  In a restart that the
    configuration starts, [configurationWatcher] is closed by its own
    handler, and the callback then closes the four others. *)
Theorem elmJson_restart_closes_configurationWatcher
    (s : Process) (n g : nat) (G : Generation) (newValue : Json) (w : Watcher) (p : string) :
  generations s !! g = Some G →
  configurationWatcher G = Some w →
  (pending s !! n = Some (g, ElmJsonAwaitRead) →
   JSON_stringify newValue ≠ JSON_stringify (elmJsonContent G) →
   (step (Resolve n (VJson newValue)) s).2
   = [Close g Manifest]
     ++ match readmeWatcher G with Some _ => [Close g ReadmeFile] | None => [] end
     ++ [Close g SourceFiles; Close g SuppressionFolder; Close g ConfigurationFiles])
  ∧ (step (Emit g ConfigurationFiles Change p) s).2 = [Close g ConfigurationFiles]
  ∧ (pending s !! n = Some (g, ConfigurationAwaitClose) →
     (step (Resolve n VUnit) s).2
     = restart_notice G
         (ConsoleLog "Your configuration has changed. Restarting elm-review with the new one.")
       ++ [Close g Manifest]
       ++ match readmeWatcher G with Some _ => [Close g ReadmeFile] | None => [] end
       ++ [Close g SourceFiles; Close g SuppressionFolder]).
Proof.
  intros Hg Hw. split; [|split].
  - intros Hn Hne. rewrite (elmJson_restart_begins s n g G newValue Hn Hg Hne).
    unfold elmJson_teardown. by rewrite Hw.
  - by rewrite (configurationWatcher_closes_itself s g G w p Hg Hw).
  - intros Hn. by rewrite (configuration_restart_begins s n g G Hn Hg).
Qed.

(** C1, the configuration path.  When [configurationWatcher] reports a
    change, its handler first calls [close()] on that watcher and waits;
    [runReview] is rebound only after that wait.  A source file removed
    meanwhile still has its review forwarded to the runner. *)
Theorem configuration_restart_leaves_reviews_on
    (s : Process) (g : nat) (G : Generation) (w : Watcher) (p q : string) :
  generations s !! g = Some G →
  configurationWatcher G = Some w →
  runReview G = ForwardsToRunner →
  run [Emit g ConfigurationFiles Change p; Emit g SourceFiles Unlink q] s
  = (tt, set_pending (pending s ++ [(g, ConfigurationAwaitClose)]) s,
     [Close g ConfigurationFiles;
      DebugLog (file_message G (relativePath_of q) " has been removed");
      RemoveFile g (relativePath_of q);
      RequestReview g]).
Proof.
  intros Hg Hw Hr. unfold run, for_each. unfold mbind at 1 2, M_bind.
  rewrite (configurationWatcher_closes_itself s g G w p Hg Hw).
  rewrite (fileWatcher_unlink_calls _ g G q) by exact Hg.
  unfold runReview_calls. by rewrite Hr.
Qed.

(** The manifest path of C1: the step that calls [close()] on the
    watchers has already rebound [runReview]. *)
Lemma elmJson_restart_disables_reviews
    (s : Process) (n g : nat) (G : Generation) (newValue : Json) :
  pending s !! n = Some (g, ElmJsonAwaitRead) →
  generations s !! g = Some G →
  JSON_stringify newValue ≠ JSON_stringify (elmJsonContent G) →
  runReview <$> generations (step (Resolve n (VJson newValue)) s).1.2 !! g = Some DoesNothing.
Proof.
  intros Hn Hg Hne. rewrite (elmJson_restart_begins s n g G newValue Hn Hg Hne). cbn.
  rewrite !list_lookup_alter_eq, Hg. done.
Qed.

(** ** Errors of the watchers *)

(** C4, where the code departs from it.  An [error] of [elmJsonWatcher]
    or of [configurationWatcher] never reaches [onError]: no listener was
    registered for it on these two watchers, and the only call such an
    event leads to is the error being thrown. *)
Theorem elmJson_and_configuration_errors_miss_onError :
  (∀ s g err e, e ∈ (step (EmitError g Manifest err) s).2 → e = UncaughtError g Manifest err)
  ∧ (∀ s g err e, e ∈ (step (EmitError g ConfigurationFiles err) s).2 →
       e = UncaughtError g ConfigurationFiles err).
Proof.
  split; intros s g err e; hunfold; munfold;
    destruct (generations s !! g) as [G|]; cbn.
  - by intros ->%list_elem_of_singleton.
  - by intros ?%elem_of_nil.
  - destruct (configurationWatcher G); cbn.
    + by intros ->%list_elem_of_singleton.
    + by intros ?%elem_of_nil.
  - by intros ?%elem_of_nil.
Qed.

(** The three other watchers hand their errors to [onError]. *)
Lemma other_errors_reach_onError (s : Process) (g : nat) (G : Generation) (err : string) :
  generations s !! g = Some G →
  step (EmitError g SourceFiles err) s = (tt, s, [OnError g err])
  ∧ step (EmitError g SuppressionFolder err) s = (tt, s, [OnError g err])
  ∧ (is_Some (readmeWatcher G) → step (EmitError g ReadmeFile err) s = (tt, s, [OnError g err])).
Proof.
  intros Hg. hunfold. munfold. rewrite Hg. cbn. repeat split. by intros [w ->].
Qed.

(** ** The refresh of suppressed errors *)

Lemma timers_fire (ts : list Timer) (s : Process) :
  for_each ts (λ x, suppressedErrorsTimeout_fires (timer_gen x)) s
  = (tt,
     set_pending (pending s ++ map (λ x, (timer_gen x, SuppressedErrorsAwaitRead)) ts) s,
     map (λ x, SuppressedErrorsRead (timer_gen x)) ts).
Proof.
  revert s. induction ts as [|t ts IH]; intros s; cbn.
  - munfold. rewrite app_nil_r. by destruct s.
  - hunfold. munfold. cbn. rewrite IH. cbn. rewrite <- app_assoc. by destruct s.
Qed.

Lemma elapse_fires (ms : nat) (s : Process) :
  step (Elapse ms) s
  = (tt,
     set_pending
       (pending s ++ map (λ x, (timer_gen x, SuppressedErrorsAwaitRead))
                         (filter (λ x, (due x ≤ now s + ms)%nat) (timers s)))
       (set_now (now s + ms)
          (set_timers (filter (λ x, ¬ (due x ≤ now s + ms)%nat) (timers s)) s)),
     map (λ x, SuppressedErrorsRead (timer_gen x))
         (filter (λ x, (due x ≤ now s + ms)%nat) (timers s))).
Proof.
  unfold step, elapse. munfold. cbn. rewrite timers_fire. by destruct s.
Qed.

Lemma filter_none (P : Timer → Prop) `{∀ t, Decision (P t)} (l : list Timer) :
  (∀ t, t ∈ l → ¬ P t) → filter P l = [].
Proof.
  induction l as [|t l IH]; intros Hl; [done|].
  rewrite filter_cons_False by (apply Hl; left).
  apply IH. intros t' Ht'. apply Hl. by right.
Qed.

Ltac filter_cases IH :=
  rewrite !filter_cons;
  repeat (case_decide; rewrite ?filter_cons; cbn);
  rewrite ?bool_decide_eq_true_2, ?bool_decide_eq_false_2 by done;
  try tauto; try lia; rewrite ?IH; try done.

(** The calls of the timers that fire, seen from generation [g]. *)
Lemma fired_of_generation (g now' : nat) (l : list Timer) :
  List.filter (refresh_of g)
    (map (λ x, SuppressedErrorsRead (timer_gen x)) (filter (λ x, (due x ≤ now')%nat) l))
  = map (λ x, SuppressedErrorsRead (timer_gen x))
        (filter (λ x, (due x ≤ now')%nat) (filter (λ t, timer_gen t = g) l)).
Proof. induction l as [|t l IH]; [done|]. filter_cases IH. Qed.

Lemma suspended_of_generation (g now' : nat) (l : list Timer) :
  List.filter (reads_suppressedErrors g)
    (map (λ x, (timer_gen x, SuppressedErrorsAwaitRead)) (filter (λ x, (due x ≤ now')%nat) l))
  = map (λ x, (timer_gen x, SuppressedErrorsAwaitRead))
        (filter (λ x, (due x ≤ now')%nat) (filter (λ t, timer_gen t = g) l)).
Proof. induction l as [|t l IH]; [done|]. filter_cases IH. Qed.

Lemma still_armed (g now' : nat) (l : list Timer) :
  filter (λ t, timer_gen t = g) (filter (λ x, ¬ (due x ≤ now')%nat) l)
  = filter (λ x, ¬ (due x ≤ now')%nat) (filter (λ t, timer_gen t = g) l).
Proof. induction l as [|t l IH]; [done|]. filter_cases IH. Qed.

Lemma state_after_app (i1 i2 : list Input) (s : Process) :
  state_after (i1 ++ i2) s = state_after i2 (state_after i1 s).
Proof.
  unfold state_after. rewrite run_app.
  destruct (run i1 s) as [[[] s1] c1]. cbn. by destruct (run i2 s1) as [[[] s2] c2].
Qed.

Lemma calls_of_app (i1 i2 : list Input) (s : Process) :
  calls_of (i1 ++ i2) s = calls_of i1 s ++ calls_of i2 (state_after i1 s).
Proof.
  unfold calls_of, state_after. rewrite run_app.
  destruct (run i1 s) as [[[] s1] c1]. cbn. by destruct (run i2 s1) as [[[] s2] c2].
Qed.

Lemma state_after_cons (i : Input) (rest : list Input) (s : Process) :
  state_after (i :: rest) s = state_after rest (step i s).1.2.
Proof.
  unfold state_after, run. cbn. unfold mbind, M_bind.
  destruct (step i s) as [[[] s1] c1]. cbn. by destruct (for_each rest step s1) as [[[] s2] c2].
Qed.

Lemma calls_of_cons (i : Input) (rest : list Input) (s : Process) :
  calls_of (i :: rest) s = (step i s).2 ++ calls_of rest (step i s).1.2.
Proof.
  unfold calls_of, run. cbn. unfold mbind, M_bind.
  destruct (step i s) as [[[] s1] c1]. cbn. by destruct (for_each rest step s1) as [[[] s2] c2].
Qed.

Lemma state_after_nil (s : Process) : state_after [] s = s.
Proof. done. Qed.

Lemma calls_of_nil (s : Process) : calls_of [] s = [].
Proof. done. Qed.

(** An event of the suppression folder: the timer of the generation is
    replaced by a new one, due 20 ms later. *)
Lemma suppression_event_rearms (s : Process) (g : nat) (k : EventKind) (p : string) :
  timer_tracked g s →
  (step (Emit g SuppressionFolder k p) s).2 = []
  ∧ armed g (step (Emit g SuppressionFolder k p) s).1.2
    = [mkTimer (nextTimer s) (now s + 20) g]
  ∧ timer_tracked g (step (Emit g SuppressionFolder k p) s).1.2
  ∧ pending (step (Emit g SuppressionFolder k p) s).1.2 = pending s
  ∧ now (step (Emit g SuppressionFolder k p) s).1.2 = now s.
Proof.
  intros (G & Hg & Htr).
  assert (Hnone : filter (λ t, timer_gen t = g)
                    (match suppressedErrorsTimeout G with
                     | Some i => filter (λ t, timer_id t ≠ i) (timers s)
                     | None => timers s
                     end) = []).
  { apply filter_none. intros t Ht Hgen.
    assert (Harmed : t ∈ armed g s).
    { apply list_elem_of_filter. split; [done|].
      destruct (suppressedErrorsTimeout G); [|done].
      by apply list_elem_of_filter in Ht as [_ Ht]. }
    specialize (Htr t Harmed). destruct (suppressedErrorsTimeout G) as [i|]; [|done].
    apply list_elem_of_filter in Ht as [Hid _]. congruence. }
  assert (Hstep : step (Emit g SuppressionFolder k p) s
    = (tt,
       set_generations
         (alter (set_suppressedErrorsTimeout (Some (nextTimer s))) g (generations s))
         (set_nextTimer (S (nextTimer s))
            (set_timers
               (match suppressedErrorsTimeout G with
                | Some i => filter (λ t, timer_id t ≠ i) (timers s)
                | None => timers s
                end ++ [mkTimer (nextTimer s) (now s + 20) g]) s)),
       [])).
  { hunfold. munfold. rewrite Hg. destruct k; cbn;
      destruct (suppressedErrorsTimeout G); by destruct s. }
  rewrite Hstep. cbn.
  assert (Harm : armed g
    (set_generations
       (alter (set_suppressedErrorsTimeout (Some (nextTimer s))) g (generations s))
       (set_nextTimer (S (nextTimer s))
          (set_timers
             (match suppressedErrorsTimeout G with
              | Some i => filter (λ t, timer_id t ≠ i) (timers s)
              | None => timers s
              end ++ [mkTimer (nextTimer s) (now s + 20) g]) s)))
    = [mkTimer (nextTimer s) (now s + 20) g]).
  { unfold armed. cbn. rewrite filter_app, Hnone. cbn. by rewrite decide_True. }
  split; [done|]. split; [exact Harm|]. split; [|done].
  exists (set_suppressedErrorsTimeout (Some (nextTimer s)) G). split.
  - cbn. by rewrite list_lookup_alter_eq, Hg.
  - intros t. rewrite Harm. by intros ->%list_elem_of_singleton.
Qed.

(** The clock advancing, seen from generation [g]. *)
Lemma elapse_of_generation (s : Process) (g ms : nat) :
  List.filter (refresh_of g) (step (Elapse ms) s).2
  = map (λ x, SuppressedErrorsRead (timer_gen x))
        (filter (λ x, (due x ≤ now s + ms)%nat) (armed g s))
  ∧ armed g (step (Elapse ms) s).1.2 = filter (λ x, ¬ (due x ≤ now s + ms)%nat) (armed g s)
  ∧ List.filter (reads_suppressedErrors g) (pending (step (Elapse ms) s).1.2)
    = List.filter (reads_suppressedErrors g) (pending s)
      ++ map (λ x, (timer_gen x, SuppressedErrorsAwaitRead))
             (filter (λ x, (due x ≤ now s + ms)%nat) (armed g s))
  ∧ generations (step (Elapse ms) s).1.2 = generations s
  ∧ now (step (Elapse ms) s).1.2 = now s + ms.
Proof.
  rewrite elapse_fires. unfold armed. cbn.
  rewrite fired_of_generation, still_armed, List.filter_app, suspended_of_generation.
  done.
Qed.

Lemma elapse_keeps_tracking (s : Process) (g ms : nat) :
  timer_tracked g s → timer_tracked g (step (Elapse ms) s).1.2.
Proof.
  intros (G & Hg & Htr).
  destruct (elapse_of_generation s g ms) as (_ & Harm & _ & Hgen & _).
  exists G. rewrite Hgen, Harm. split; [done|].
  intros t Ht. apply Htr. by apply list_elem_of_filter in Ht as [_ Ht].
Qed.

(** While the events follow each other by less than 20 ms, no timer of
    the generation fires. *)
Lemma burst_is_quiet (g : nat) (events : list (EventKind * string * nat)) :
  Forall (λ e, (e.2 < 20)%nat) events →
  ∀ s, timer_tracked g s →
       List.filter (refresh_of g) (calls_of (burst g events) s) = []
       ∧ timer_tracked g (state_after (burst g events) s)
       ∧ List.filter (reads_suppressedErrors g) (pending (state_after (burst g events) s))
         = List.filter (reads_suppressedErrors g) (pending s).
Proof.
  induction 1 as [|[[k p] gap] events Hgap _ IH]; intros s Htr; [done|].
  cbn in Hgap.
  change (burst g ((k, p, gap) :: events))
    with (Emit g SuppressionFolder k p :: Elapse gap :: burst g events).
  destruct (suppression_event_rearms s g k p Htr) as (Hc & Harm & Htr1 & Hpend & Hnow).
  set (s1 := (step (Emit g SuppressionFolder k p) s).1.2) in *.
  destruct (elapse_of_generation s1 g gap) as (Hc2 & Harm2 & Hpend2 & _ & _).
  pose proof (elapse_keeps_tracking s1 g gap Htr1) as Htr2.
  set (s2 := (step (Elapse gap) s1).1.2) in *.
  rewrite Harm, Hnow in Hc2, Hpend2.
  rewrite filter_cons_False in Hc2, Hpend2 by (cbn; lia).
  rewrite filter_nil in Hc2, Hpend2. cbn [map] in Hc2, Hpend2. rewrite app_nil_r in Hpend2.
  destruct (IH s2 Htr2) as (IHc & IHtr & IHpend).
  rewrite !state_after_cons, !calls_of_cons. fold s1. fold s2.
  rewrite !List.filter_app, Hc, Hc2, IHc, IHpend, Hpend2, Hpend. done.
Qed.

Lemma suppressedErrors_are_sent (s : Process) (n g : nat) (data : Json) :
  pending s !! n = Some (g, SuppressedErrorsAwaitRead) →
  step (Resolve n (VJson data)) s
  = (tt, set_pending (delete n (pending s)) s,
     [DebugLog "Suppressed errors have been added"; UpdateSuppressedErrors g data]).
Proof. intros Hn. hunfold. munfold. by rewrite Hn. Qed.

(** C6.  Events of the suppression folder that follow each other by
    less than 20 ms, then at least 20 ms without one.  Each event
    replaces the timer of the generation by a new one due 20 ms later.
    Until the last event no loader read and no send happen; in the quiet
    time the timer fires once: the loader is read once, after the last
    event, and the handler that waits for it sends what it returns. *)
Theorem suppression_burst_refreshes_once
    (s : Process) (g : nat) (events : list (EventKind * string * nat))
    (k : EventKind) (p : string) (quiet : nat) :
  timer_tracked g s →
  Forall (λ e, (e.2 < 20)%nat) events →
  (20 ≤ quiet)%nat →
  let inputs := burst g events ++ [Emit g SuppressionFolder k p] in
  (∀ s0 k0 p0, timer_tracked g s0 →
     armed g (state_after [Emit g SuppressionFolder k0 p0] s0)
     = [mkTimer (nextTimer s0) (now s0 + 20) g])
  ∧ List.filter (refresh_of g) (calls_of inputs s) = []
  ∧ (∃ id, armed g (state_after inputs s)
           = [mkTimer id (now (state_after inputs s) + 20) g])
  ∧ List.filter (refresh_of g) (calls_of (inputs ++ [Elapse quiet]) s)
    = [SuppressedErrorsRead g]
  ∧ armed g (state_after (inputs ++ [Elapse quiet]) s) = []
  ∧ List.filter (reads_suppressedErrors g) (pending (state_after (inputs ++ [Elapse quiet]) s))
    = List.filter (reads_suppressedErrors g) (pending s) ++ [(g, SuppressedErrorsAwaitRead)]
  ∧ (∀ s0 n data, pending s0 !! n = Some (g, SuppressedErrorsAwaitRead) →
       step (Resolve n (VJson data)) s0
       = (tt, set_pending (delete n (pending s0)) s0,
          [DebugLog "Suppressed errors have been added"; UpdateSuppressedErrors g data])).
Proof.
  intros Htr Hgaps Hquiet inputs. subst inputs.
  destruct (burst_is_quiet g events Hgaps s Htr) as (Hc0 & Htr0 & Hpend0).
  set (s0 := state_after (burst g events) s) in *.
  destruct (suppression_event_rearms s0 g k p Htr0) as (Hc1 & Harm1 & Htr1 & Hpend1 & Hnow1).
  assert (Hs1 : state_after (burst g events ++ [Emit g SuppressionFolder k p]) s
                = (step (Emit g SuppressionFolder k p) s0).1.2).
  { by rewrite state_after_app, state_after_cons, state_after_nil. }
  assert (Hcalls1 : List.filter (refresh_of g)
                      (calls_of (burst g events ++ [Emit g SuppressionFolder k p]) s) = []).
  { rewrite calls_of_app, calls_of_cons, calls_of_nil, !List.filter_app. fold s0.
    by rewrite Hc0, Hc1. }
  set (s1 := (step (Emit g SuppressionFolder k p) s0).1.2) in *.
  destruct (elapse_of_generation s1 g quiet) as (Hc2 & Harm2 & Hpend2 & _ & _).
  rewrite Harm1, Hnow1 in Hc2, Harm2, Hpend2.
  rewrite filter_cons_True in Hc2, Hpend2 by (cbn; lia).
  rewrite filter_cons_False in Harm2 by (cbn; lia).
  rewrite filter_nil in Hc2, Harm2, Hpend2. cbn [map timer_gen] in Hc2, Hpend2.
  split; [|split; [|split; [|split; [|split; [|split]]]]].
  - intros s' k0 p0 Htr'. rewrite state_after_cons, state_after_nil.
    by destruct (suppression_event_rearms s' g k0 p0 Htr') as (_ & Harm & _).
  - exact Hcalls1.
  - exists (nextTimer s0). by rewrite Hs1, Harm1, Hnow1.
  - rewrite calls_of_app, List.filter_app, Hcalls1, Hs1, calls_of_cons, calls_of_nil.
    rewrite app_nil_r. exact Hc2.
  - by rewrite state_after_app, Hs1, state_after_cons, state_after_nil.
  - rewrite state_after_app, Hs1, state_after_cons, state_after_nil.
    by rewrite Hpend2, Hpend1, Hpend0.
  - intros s' n data Hn. by apply suppressedErrors_are_sent.
Qed.

(** ** Facts about every step *)

Ltac step_cases :=
  hunfold; unfold AppState_filesWereUpdated in *;
  repeat first [progress munfold | progress cbn | split_match].

Lemma objects_of_allocates (files : list ElmFile) (s : Process) :
  objects_of files s
  = (seq (length (heap s)) (length files), set_heap (heap s ++ files) s, []).
Proof.
  revert s. induction files as [|f files IH]; intros s; cbn.
  - munfold. rewrite app_nil_r. by destruct s.
  - munfold. cbn. rewrite IH. cbn. rewrite length_app. cbn.
    rewrite Nat.add_1_r, <- app_assoc. by destruct s.
Qed.

Lemma filesWereUpdated_registers (rs : list nat) (s : Process) :
  AppState_filesWereUpdated rs s
  = (tt, set_filesInMemoryCache (registered (heap s) (filesInMemoryCache s) rs) s, []).
Proof.
  unfold AppState_filesWereUpdated, registered.
  revert s. induction rs as [|r rs IH]; intros s; cbn.
  - munfold. by destruct s.
  - munfold. cbn. destruct (heap s !! r) as [f|]; cbn; rewrite IH; by destruct s.
Qed.

Lemma watchFiles_installs (opts : Options) (wopts : WatchOptions) (s : Process) :
  step (CallWatchFiles opts wopts) s
  = (tt,
     set_generations (generations s ++ [new_generation opts wopts])
       (set_isFlushingStdio true
          (set_filesInMemoryCache
             (registered (heap s ++ elmFiles wopts) (filesInMemoryCache s)
                (seq (length (heap s)) (length (elmFiles wopts))))
             (set_heap (heap s ++ elmFiles wopts) s))),
     watchFiles_calls (length (generations s)) opts wopts (isFlushingStdio s)).
Proof.
  unfold step, watchFiles, watchConfiguration, watchFiles_calls, new_generation,
    configurationWatcher_of, fileWatcher_of.
  unfold mbind at 1 2, M_bind, get_process. rewrite objects_of_allocates.
  unfold mbind at 1, M_bind. rewrite filesWereUpdated_registers.
  munfold. cbn.
  destruct (isFlushingStdio s) eqn:Hf, (readmePath opts), (reviewElmJsonPath wopts) as [p|];
    cbn; try destruct (bool_decide (p = EmptyString) || negb (watchConfig opts));
    cbn; destruct s; cbn in *; by subst.
Qed.

Lemma no_stdin_when_timers_fire (l : list Timer) :
  List.filter is_StdinOnReadable (map (λ x, SuppressedErrorsRead (timer_gen x)) l) = [].
Proof. induction l as [|t l IH]; [done | exact IH]. Qed.

(** Only [watchFiles] touches [isFlushingStdio] and [process.stdin]. *)
Lemma step_keeps_isFlushingStdio (i : Input) (s : Process) :
  is_CallWatchFiles i = false →
  isFlushingStdio (step i s).1.2 = isFlushingStdio s
  ∧ List.filter is_StdinOnReadable (step i s).2 = [].
Proof.
  intros Hi. destruct i as [opts wopts| g t k p | g t err | n v | ms]; [done| | | |].
  - step_cases; done.
  - step_cases; done.
  - step_cases; done.
  - rewrite elapse_fires. cbn. by rewrite no_stdin_when_timers_fire.
Qed.

Lemma watchFiles_sets_isFlushingStdio (opts : Options) (wopts : WatchOptions) (s : Process) :
  isFlushingStdio (step (CallWatchFiles opts wopts) s).1.2 = true
  ∧ List.filter is_StdinOnReadable (step (CallWatchFiles opts wopts) s).2
    = if isFlushingStdio s then [] else [StdinOnReadable].
Proof.
  rewrite watchFiles_installs. cbn. split; [done|].
  unfold watchFiles_calls.
  destruct (isFlushingStdio s), (readmeWatcher (new_generation opts wopts)),
    (configurationWatcher_of opts wopts); done.
Qed.

(** Once the flag is set it stays set, and nothing more is registered
    on [process.stdin]. *)
Lemma isFlushingStdio_stays (inputs : list Input) (s : Process) :
  isFlushingStdio s = true →
  isFlushingStdio (state_after inputs s) = true
  ∧ List.filter is_StdinOnReadable (calls_of inputs s) = [].
Proof.
  revert s. induction inputs as [|i inputs IH]; intros s Hs; [done|].
  rewrite state_after_cons, calls_of_cons, List.filter_app.
  assert (Hi : isFlushingStdio (step i s).1.2 = true
               ∧ List.filter is_StdinOnReadable (step i s).2 = []).
  { destruct (is_CallWatchFiles i) eqn:Hw.
    - destruct i; try done. destruct (watchFiles_sets_isFlushingStdio opts wopts s) as [? Hc].
      by rewrite Hs in Hc.
    - destruct (step_keeps_isFlushingStdio i s Hw) as [Hf ?]. by rewrite Hf. }
  destruct Hi as [Hf Hc]. destruct (IH _ Hf) as [? Hc']. by rewrite Hc, Hc'.
Qed.

Lemma before_watchFiles (inputs : list Input) (s : Process) :
  Forall (λ i, is_CallWatchFiles i = false) inputs →
  isFlushingStdio (state_after inputs s) = isFlushingStdio s
  ∧ List.filter is_StdinOnReadable (calls_of inputs s) = [].
Proof.
  intros Hall. revert s. induction Hall as [|i inputs Hi _ IH]; intros s; [done|].
  rewrite state_after_cons, calls_of_cons, List.filter_app.
  destruct (step_keeps_isFlushingStdio i s Hi) as [Hf Hc].
  destruct (IH (step i s).1.2) as [Hf' Hc']. by rewrite Hf', Hf, Hc, Hc'.
Qed.

(** C8.  In any run of the process, the calls of [watchFiles] made by
    restarts included: nothing is registered on [process.stdin] before
    the first call of [watchFiles]; that call registers the listener and
    sets [isFlushingStdio]; the whole run registers it exactly once, and
    the flag is still set after whatever follows. *)
Theorem stdin_listener_is_registered_once
    (before after : list Input) (opts : Options) (wopts : WatchOptions) :
  Forall (λ i, is_CallWatchFiles i = false) before →
  List.filter is_StdinOnReadable (calls_of before initial) = []
  ∧ isFlushingStdio (state_after before initial) = false
  ∧ List.filter is_StdinOnReadable
      (step (CallWatchFiles opts wopts) (state_after before initial)).2
    = [StdinOnReadable]
  ∧ List.filter is_StdinOnReadable
      (calls_of (before ++ CallWatchFiles opts wopts :: after) initial)
    = [StdinOnReadable]
  ∧ isFlushingStdio (state_after (before ++ CallWatchFiles opts wopts :: after) initial)
    = true.
Proof.
  intros Hbefore.
  destruct (before_watchFiles before initial Hbefore) as [Hf Hc].
  destruct (watchFiles_sets_isFlushingStdio opts wopts (state_after before initial))
    as [Hset Hcall].
  rewrite Hf in Hcall. change (isFlushingStdio initial) with false in Hcall.
  destruct (isFlushingStdio_stays after _ Hset) as [Hstay Hnone].
  repeat split; try done.
  - rewrite calls_of_app, calls_of_cons, !List.filter_app. by rewrite Hc, Hcall, Hnone.
  - by rewrite state_after_app, state_after_cons.
Qed.

Lemma later_closure_refl (G : Generation) : later_closure G G.
Proof. by repeat split. Qed.

Lemma later_closure_trans (G1 G2 G3 : Generation) :
  later_closure G1 G2 → later_closure G2 G3 → later_closure G1 G3.
Proof.
  intros (? & ? & ? & ? & ?) (? & ? & ? & ? & ?). repeat split; try congruence. auto.
Qed.

(** Finds the closure of generation [g] after assignments to closure
    variables. *)
Ltac find_closure Hg :=
  cbn; rewrite ?list_lookup_alter;
  repeat match goal with
         | |- context [decide (?a = ?b)] => destruct (decide (a = b)); [subst|]
         end;
  rewrite ?Hg; cbn;
  eexists; (split; [reflexivity | by repeat split]).

(** A step leaves every generation in place, with the same watchers. *)
Lemma step_later_closure (i : Input) (s : Process) (g : nat) (G : Generation) :
  generations s !! g = Some G →
  ∃ G', generations (step i s).1.2 !! g = Some G' ∧ later_closure G G'.
Proof.
  intros Hg. destruct i as [opts wopts| g0 t k p | g0 t err | n v | ms].
  - rewrite watchFiles_installs. cbn. exists G. split; [|apply later_closure_refl].
    by apply lookup_app_l_Some.
  - step_cases; find_closure Hg.
  - step_cases; find_closure Hg.
  - step_cases; find_closure Hg.
  - rewrite elapse_fires. find_closure Hg.
Qed.

Lemma run_later_closure (inputs : list Input) (s : Process) (g : nat) (G : Generation) :
  generations s !! g = Some G →
  ∃ G', generations (state_after inputs s) !! g = Some G' ∧ later_closure G G'.
Proof.
  revert s G. induction inputs as [|i inputs IH]; intros s G Hg.
  - exists G. split; [done | apply later_closure_refl].
  - destruct (step_later_closure i s g G Hg) as (G1 & Hg1 & H1).
    destruct (IH _ G1 Hg1) as (G2 & Hg2 & H2).
    exists G2. rewrite state_after_cons. split; [done|].
    by eapply later_closure_trans.
Qed.

Ltac not_in_calls :=
  let Hin := fresh "Hin" in
  intros Hin;
  repeat (apply elem_of_cons in Hin as [Hin|Hin]; [try discriminate Hin|]);
  try by apply elem_of_nil in Hin.

(** A generation whose [runReview] was rebound forwards no review. *)
Lemma step_of_disabled_generation (i : Input) (s : Process) (g : nat) (G : Generation) :
  generations s !! g = Some G →
  runReview G = DoesNothing →
  RequestReview g ∉ (step i s).2.
Proof.
  intros Hg Hr. destruct i as [opts wopts| g0 t k p | g0 t err | n v | ms].
  - rewrite watchFiles_installs. cbn. unfold watchFiles_calls.
    destruct (isFlushingStdio s), (readmeWatcher (new_generation opts wopts)),
      (configurationWatcher_of opts wopts); cbn; not_in_calls.
  - step_cases; not_in_calls; simplify_eq; congruence.
  - step_cases; not_in_calls; simplify_eq; congruence.
  - step_cases; not_in_calls; simplify_eq; congruence.
  - rewrite elapse_fires. cbn. by intros (t & ? & _)%list_elem_of_fmap.
Qed.

(** Second half of C1, for whichever path rebinds [runReview]: from
    then on, whatever happens, no review of that generation is
    forwarded to the runner. *)
Lemma disabled_generation_requests_no_review
    (inputs : list Input) (s : Process) (g : nat) (G : Generation) :
  generations s !! g = Some G →
  runReview G = DoesNothing →
  RequestReview g ∉ calls_of inputs s.
Proof.
  revert s G. induction inputs as [|i inputs IH]; intros s G Hg Hr.
  - by intros ?%elem_of_nil.
  - rewrite calls_of_cons. intros [Hin|Hin]%elem_of_app.
    + by eapply step_of_disabled_generation.
    + destruct (step_later_closure i s g G Hg) as (G1 & Hg1 & (_ & _ & _ & _ & H1)).
      by eapply (IH _ G1 Hg1 (H1 Hr)).
Qed.

(** ** The timers of every reachable state *)

Lemma timers_tracked_generation (s : Process) (g : nat) (G : Generation) :
  timers_tracked s → generations s !! g = Some G → timer_tracked g s.
Proof.
  intros Htr Hg. exists G. split; [done|].
  intros t [Hgen Ht]%list_elem_of_filter.
  destruct (Htr t Ht) as (G' & HG' & Hid). congruence.
Qed.

(** Steps that cancel or fire timers and leave [suppressedErrorsTimeout]. *)
Lemma timers_tracked_later (s s' : Process) :
  timers_tracked s →
  (∀ t, t ∈ timers s' → t ∈ timers s) →
  (∀ g G, generations s !! g = Some G →
          ∃ G', generations s' !! g = Some G'
                ∧ suppressedErrorsTimeout G' = suppressedErrorsTimeout G) →
  timers_tracked s'.
Proof.
  intros Htr Hsub Hgen t Ht.
  destruct (Htr t (Hsub t Ht)) as (G & HG & Hid).
  destruct (Hgen _ G HG) as (G' & HG' & Hsame). exists G'. split; [done | congruence].
Qed.

Lemma suppression_event_keeps_tracking (s : Process) (g : nat) (k : EventKind) (p : string) :
  timers_tracked s → timers_tracked (step (Emit g SuppressionFolder k p) s).1.2.
Proof.
  intros Htr. destruct (generations s !! g) as [G|] eqn:Hg.
  - assert (Hstep : (step (Emit g SuppressionFolder k p) s).1.2
      = set_generations
          (alter (set_suppressedErrorsTimeout (Some (nextTimer s))) g (generations s))
          (set_nextTimer (S (nextTimer s))
             (set_timers
                (match suppressedErrorsTimeout G with
                 | Some i => filter (λ t, timer_id t ≠ i) (timers s)
                 | None => timers s
                 end ++ [mkTimer (nextTimer s) (now s + 20) g]) s))).
    { hunfold. munfold. rewrite Hg. destruct k; cbn;
        destruct (suppressedErrorsTimeout G); by destruct s. }
    rewrite Hstep. intros t. cbn. intros [Ht | ->%list_elem_of_singleton]%elem_of_app.
    + assert (Hold : t ∈ timers s ∧ suppressedErrorsTimeout G ≠ Some (timer_id t)).
      { destruct (suppressedErrorsTimeout G) as [i|]; [|done].
        apply list_elem_of_filter in Ht as [Hid Ht]. split; [done | congruence]. }
      destruct Hold as [Hin Hne]. destruct (Htr t Hin) as (G' & HG' & Hid).
      exists G'. split; [|done]. rewrite list_lookup_alter_ne; [done|].
      intros ->. congruence.
    + cbn. exists (set_suppressedErrorsTimeout (Some (nextTimer s)) G).
      by rewrite list_lookup_alter_eq, Hg.
  - assert (Hstep : (step (Emit g SuppressionFolder k p) s).1.2 = s).
    { hunfold. munfold. by rewrite Hg. }
    by rewrite Hstep.
Qed.

Ltac keep_timeout Hg :=
  cbn; rewrite ?list_lookup_alter;
  repeat match goal with
         | |- context [decide (?a = ?b)] => destruct (decide (a = b)); [subst|]
         end;
  rewrite ?Hg; cbn;
  eexists; (split; [reflexivity | done]).

Ltac still_tracked Htr :=
  apply (timers_tracked_later _ _ Htr);
  [ let t := fresh "t" in let Ht := fresh "Ht" in
    cbn; intros t Ht; try (apply list_elem_of_filter in Ht as [_ Ht]); exact Ht
  | let g := fresh "g" in let G := fresh "G" in let Hg := fresh "Hg" in
    intros g G Hg; keep_timeout Hg ].

Lemma step_keeps_timers_tracked (i : Input) (s : Process) :
  timers_tracked s → timers_tracked (step i s).1.2.
Proof.
  intros Htr. destruct i as [opts wopts| g0 t k p | g0 t err | n v | ms].
  - rewrite watchFiles_installs. cbn. intros t Ht. cbn in *.
    destruct (Htr t Ht) as (G & HG & Hid). exists G. split; [|done].
    by apply lookup_app_l_Some.
  - destruct (decide (t = SuppressionFolder)) as [->|Hne].
    + by apply suppression_event_keeps_tracking.
    + destruct t; try done; step_cases; still_tracked Htr.
  - step_cases; still_tracked Htr.
  - step_cases; still_tracked Htr.
  - rewrite elapse_fires. still_tracked Htr.
Qed.

(** In every state the process can reach, and for every generation, the
    variable [suppressedErrorsTimeout] names the armed timers of that
    generation: the hypothesis of C6 holds there. *)
Lemma reachable_timer_tracked (inputs : list Input) (g : nat) (G : Generation) :
  generations (state_after inputs initial) !! g = Some G →
  timer_tracked g (state_after inputs initial).
Proof.
  apply timers_tracked_generation.
  assert (H : ∀ s, timers_tracked s → timers_tracked (state_after inputs s)).
  { induction inputs as [|i inputs IH]; intros s Hs; [done|].
    rewrite state_after_cons. by apply IH, step_keeps_timers_tracked. }
  apply H. by intros t ?%elem_of_nil.
Qed.

(** ** More about the handlers of source files *)

Lemma fileWatcher_add_unknown (s : Process) (g : nat) (G : Generation) (p : string) :
  generations s !! g = Some G →
  filesInMemoryCache s !! relativePath_of p = None →
  step (Emit g SourceFiles Add p) s
  = (tt,
     set_pending (pending s ++ [(g, FileAddAwaitRead (relativePath_of p) (length (heap s)) true)])
       (set_heap (heap s ++ [mkElmFile (relativePath_of p) EmptyString None]) s),
     [DebugLog (file_message G (relativePath_of p) " has been added");
      FsReadFile (relativePath_of p)]).
Proof.
  intros Hg Hc. unfold relativePath_of, file_message in *. hunfold. munfold.
  rewrite Hg. cbn. by rewrite Hc.
Qed.

Lemma fileWatcher_add_read_new (s : Process) (n g r : nat) (G : Generation)
    (rel c : string) :
  pending s !! n = Some (g, FileAddAwaitRead rel r true) →
  generations s !! g = Some G →
  heap s !! r = Some (mkElmFile rel EmptyString None) →
  step (Resolve n (VString c)) s
  = (tt,
     set_filesInMemoryCache (<[rel := r]> (filesInMemoryCache s))
       (set_heap (<[r := mkElmFile rel c None]> (heap s))
          (set_pending (delete n (pending s)) s)),
     CollectFile g r :: runReview_calls g G).
Proof.
  intros Hn Hg Hr. pose proof (lookup_lt_Some _ _ _ Hr) as Hlt.
  hunfold. unfold AppState_filesWereUpdated. munfold. rewrite Hn. cbn. rewrite Hr. cbn.
  unfold runReview_calls.
  destruct (decide (c = EmptyString)) as [->|Hne].
  - rewrite bool_decide_eq_false_2 by (intros H; by apply H).
    repeat first [progress munfold | progress cbn | rewrite Hr | rewrite Hg].
    rewrite (list_insert_id _ _ _ Hr). by destruct (runReview G).
  - rewrite bool_decide_eq_true_2 by congruence.
    repeat first [progress munfold | progress cbn | rewrite Hg
                 | rewrite list_lookup_insert_eq by done].
    by destruct (runReview G).
Qed.

(** X1.  The first [add] of a path the cache does not know builds one
    record, fills it with the content read, registers it under the path
    and sends it once.  A [change] of that path that reads the same
    content is then silent. *)
Theorem first_add_registers_one_record
    (s : Process) (g : nat) (G : Generation) (p c : string) :
  generations s !! g = Some G →
  filesInMemoryCache s !! relativePath_of p = None →
  let s' := set_filesInMemoryCache
              (<[relativePath_of p := length (heap s)]> (filesInMemoryCache s))
              (set_heap (heap s ++ [mkElmFile (relativePath_of p) c None]) s) in
  run [Emit g SourceFiles Add p; Resolve (length (pending s)) (VString c)] s
  = (tt, s',
     [DebugLog (file_message G (relativePath_of p) " has been added");
      FsReadFile (relativePath_of p);
      CollectFile g (length (heap s))]
     ++ runReview_calls g G)
  ∧ run [Emit g SourceFiles Change p; Resolve (length (pending s)) (VString c)] s'
    = (tt, s', [FsReadFile (relativePath_of p)]).
Proof.
  intros Hg Hc s'. split.
  - unfold run, for_each. unfold mbind at 1 2, M_bind.
    rewrite (fileWatcher_add_unknown s g G p Hg Hc).
    rewrite (fileWatcher_add_read_new _ (length (pending s)) g (length (heap s)) G
               (relativePath_of p) c);
      cbn; [| apply lookup_last_task | exact Hg | apply lookup_fresh_record].
    rewrite delete_last_task, insert_fresh_record, app_nil_r. subst s'. by destruct s.
  - assert (Hc' : filesInMemoryCache s' !! relativePath_of p = Some (length (heap s))).
    { subst s'. cbn. apply lookup_insert_eq. }
    assert (Hr : heap s' !! length (heap s) = Some (mkElmFile (relativePath_of p) c None)).
    { subst s'. cbn. apply lookup_fresh_record. }
    assert (Hg' : generations s' !! g = Some G) by (subst s'; exact Hg).
    assert (Hp : pending s' = pending s) by (by subst s').
    unfold run, for_each. unfold mbind at 1 2, M_bind.
    rewrite (fileWatcher_change_known s' g G p _ Hg' Hc').
    rewrite (fileWatcher_change_same _ (length (pending s)) g (length (heap s)) G
               (relativePath_of p) (mkElmFile (relativePath_of p) c None));
      cbn; [| apply lookup_last_task | exact Hg' | exact Hr].
    rewrite ?Hp, delete_last_task. subst s'. by destruct s.
Qed.

(** ** More about restarts *)

Lemma run_cons_eq (i : Input) (rest : list Input) (s s1 s2 : Process) (c1 c2 : list Effect) :
  step i s = (tt, s1, c1) → run rest s1 = (tt, s2, c2) → run (i :: rest) s = (tt, s2, c1 ++ c2).
Proof.
  intros H1 H2. unfold run in *. cbn. unfold mbind, M_bind. by rewrite H1, H2.
Qed.

Lemma run_nil (s : Process) : run [] s = (tt, s, []).
Proof. done. Qed.

Lemma elmJsonWatcher_reads (s : Process) (g : nat) (G : Generation) (p : string) :
  generations s !! g = Some G →
  step (Emit g Manifest Change p) s
  = (tt, set_pending (pending s ++ [(g, ElmJsonAwaitRead)]) s,
     [FsReadJsonFile (elmJsonPath (options G))]).
Proof. intros Hg. hunfold. munfold. by rewrite Hg. Qed.

Lemma elmJson_restart_ends (s : Process) (n g : nat) (G : Generation) :
  pending s !! n = Some (g, ElmJsonAwaitClose) →
  generations s !! g = Some G →
  step (Resolve n VUnit) s
  = (tt, set_pending (delete n (pending s)) s,
     restart_notice G (DebugLog "Your `elm.json` has changed. Restarting elm-review.")
     ++ [RebuildAndRewatch g]).
Proof.
  intros Hn Hg. hunfold. munfold. rewrite Hn. cbn. rewrite Hg. unfold restart_notice.
  by destruct (bool_decide (report (options G) ≠ "json")), (debug (options G)).
Qed.

Lemma configuration_restart_ends (s : Process) (n g : nat) :
  pending s !! n = Some (g, RestartAwaitClose) →
  step (Resolve n VUnit) s
  = (tt, set_pending (delete n (pending s)) s, [RebuildAndRewatch g]).
Proof. intros Hn. hunfold. munfold. by rewrite Hn. Qed.

Lemma lookup_restarting (s : Process) (g : nat) (G : Generation) :
  generations s !! g = Some G →
  generations (restarting g G s) !! g = Some (set_runReview DoesNothing G).
Proof. intros Hg. cbn. by rewrite list_lookup_alter_eq, Hg. Qed.

(** X2.  A whole restart started by the manifest: the file is read, and
    when its serialisation differs from the cached one the new value is
    cached, [runReview] is rebound, the timer is cancelled and the
    watchers are closed; once they are closed the console is cleared
    (not for the [json] report, not in debug mode), the message is logged
    (not for the [json] report), and [rebuildAndRewatch] is called, once
    and last. *)
Theorem elmJson_restart_rebuilds_once
    (s : Process) (g : nat) (G : Generation) (p : string) (newValue : Json) :
  generations s !! g = Some G →
  JSON_stringify newValue ≠ JSON_stringify (elmJsonContent G) →
  run [Emit g Manifest Change p;
       Resolve (length (pending s)) (VJson newValue);
       Resolve (length (pending s)) VUnit] s
  = (tt,
     set_timers (match suppressedErrorsTimeout G with
                 | Some i => filter (λ t, timer_id t ≠ i) (timers s)
                 | None => timers s
                 end)
       (set_generations
          (alter (set_runReview DoesNothing) g
             (alter (set_elmJsonContent newValue) g (generations s))) s),
     [FsReadJsonFile (elmJsonPath (options G))]
     ++ ([Close g Manifest]
         ++ match readmeWatcher G with Some _ => [Close g ReadmeFile] | None => [] end
         ++ [Close g SourceFiles; Close g SuppressionFolder]
         ++ match configurationWatcher G with
            | Some _ => [Close g ConfigurationFiles]
            | None => []
            end)
     ++ (if bool_decide (report (options G) ≠ "json")
         then (if debug (options G) then [] else [ClearConsole])
              ++ [DebugLog "Your `elm.json` has changed. Restarting elm-review."]
         else [])
     ++ [RebuildAndRewatch g]).
Proof.
  intros Hg Hne.
  eapply eq_trans.
  { eapply run_cons_eq; [by apply elmJsonWatcher_reads|].
    eapply run_cons_eq.
    { apply (elmJson_restart_begins _ _ g G); [apply lookup_last_task | exact Hg | exact Hne]. }
    eapply run_cons_eq; [|apply run_nil].
    apply (elmJson_restart_ends _ _ g
             (set_runReview DoesNothing (set_elmJsonContent newValue G))).
    - cbn. rewrite delete_last_task. apply lookup_last_task.
    - cbn. by rewrite !list_lookup_alter_eq, Hg. }
  cbn. rewrite !delete_last_task. unfold restart_notice, elmJson_teardown. cbn.
  rewrite app_nil_r. by destruct s.
Qed.

(** X3.  A whole restart started by the configuration: its watcher is
    closed first; then the console is cleared and the message printed
    (as for the manifest), [runReview] is rebound, the timer is
    cancelled and the four other watchers are closed; once they are
    closed [rebuildAndRewatch] is called, once and last.
    [elmJsonContent] is not touched. *)
Theorem configuration_restart_rebuilds_once
    (s : Process) (g : nat) (G : Generation) (w : Watcher) (p : string) :
  generations s !! g = Some G →
  configurationWatcher G = Some w →
  run [Emit g ConfigurationFiles Change p;
       Resolve (length (pending s)) VUnit;
       Resolve (length (pending s)) VUnit] s
  = (tt,
     set_timers (match suppressedErrorsTimeout G with
                 | Some i => filter (λ t, timer_id t ≠ i) (timers s)
                 | None => timers s
                 end)
       (set_generations (alter (set_runReview DoesNothing) g (generations s)) s),
     [Close g ConfigurationFiles]
     ++ (if bool_decide (report (options G) ≠ "json")
         then (if debug (options G) then [] else [ClearConsole])
              ++ [ConsoleLog
                    "Your configuration has changed. Restarting elm-review with the new one."]
         else [])
     ++ ([Close g Manifest]
         ++ match readmeWatcher G with Some _ => [Close g ReadmeFile] | None => [] end
         ++ [Close g SourceFiles; Close g SuppressionFolder])
     ++ [RebuildAndRewatch g]).
Proof.
  intros Hg Hw.
  eapply eq_trans.
  { eapply run_cons_eq; [by eapply configurationWatcher_closes_itself|].
    eapply run_cons_eq.
    { apply (configuration_restart_begins _ _ g G); [apply lookup_last_task | exact Hg]. }
    eapply run_cons_eq; [|apply run_nil].
    apply configuration_restart_ends.
    cbn. rewrite delete_last_task. apply lookup_last_task. }
  cbn. rewrite !delete_last_task. unfold restart_notice, restart_teardown. cbn.
  destruct (bool_decide (report (options G) ≠ "json")), (debug (options G)),
    (readmeWatcher G); by destruct s.
Qed.

(** X4.  Two [change] events of the manifest whose reads both return the
    same new value start one restart: the first read to end caches the
    value, so the second compares equal and is dropped.  The watchers
    are closed once. *)
Theorem repeated_elmJson_change_restarts_once
    (s : Process) (g : nat) (G : Generation) (p q : string) (newValue : Json) :
  generations s !! g = Some G →
  JSON_stringify newValue ≠ JSON_stringify (elmJsonContent G) →
  run [Emit g Manifest Change p; Emit g Manifest Change q;
       Resolve (length (pending s)) (VJson newValue);
       Resolve (length (pending s)) (VJson newValue)] s
  = (tt,
     set_pending (pending s ++ [(g, ElmJsonAwaitClose)])
       (restarting g G
          (set_generations (alter (set_elmJsonContent newValue) g (generations s)) s)),
     [FsReadJsonFile (elmJsonPath (options G)); FsReadJsonFile (elmJsonPath (options G))]
     ++ elmJson_teardown g G).
Proof.
  intros Hg Hne.
  eapply eq_trans.
  { eapply run_cons_eq; [by apply elmJsonWatcher_reads|].
    eapply run_cons_eq; [by apply elmJsonWatcher_reads|].
    eapply run_cons_eq.
    { apply (elmJson_restart_begins _ _ g G); [|exact Hg|exact Hne].
      cbn. rewrite <- app_assoc. by apply list_lookup_middle. }
    eapply run_cons_eq; [|apply run_nil].
    apply (elmJson_same_serialisation _ _ g
             (set_runReview DoesNothing (set_elmJsonContent newValue G))).
    - cbn. rewrite <- (app_assoc (pending s)). cbn. rewrite delete_middle. cbn.
      rewrite <- app_assoc. by apply list_lookup_middle.
    - cbn. by rewrite !list_lookup_alter_eq, Hg.
    - done. }
  cbn. rewrite <- (app_assoc (pending s)). cbn. rewrite delete_middle. cbn.
  rewrite <- (app_assoc (pending s)). cbn. rewrite delete_middle, app_nil_r.
  by destruct s.
Qed.

Lemma cancelled_timer_leaves_none (s : Process) (g : nat) (G : Generation) :
  (∀ t, t ∈ armed g s → suppressedErrorsTimeout G = Some (timer_id t)) →
  armed g (restarting g G s) = [].
Proof.
  intros Htr. unfold armed. cbn. apply filter_none. intros t Ht Hgen.
  assert (Harmed : t ∈ armed g s).
  { apply list_elem_of_filter. split; [done|].
    destruct (suppressedErrorsTimeout G); [|done].
    by apply list_elem_of_filter in Ht as [_ Ht]. }
  specialize (Htr t Harmed). destruct (suppressedErrorsTimeout G) as [i|]; [|done].
  apply list_elem_of_filter in Ht as [Hid _]. congruence.
Qed.

Lemma disarmed_later (l l' : list Timer) (g : nat) :
  (∀ t, t ∈ l' → t ∈ l ∨ timer_gen t ≠ g) →
  filter (λ t, timer_gen t = g) l = [] → filter (λ t, timer_gen t = g) l' = [].
Proof.
  intros Hsub Harm. apply filter_none. intros t Ht Hgen.
  destruct (Hsub t Ht) as [Hold|Hne]; [|done].
  assert (Hin : t ∈ filter (λ t, timer_gen t = g) l) by (by apply list_elem_of_filter).
  rewrite Harm in Hin. by apply elem_of_nil in Hin.
Qed.

Ltac still_disarmed Harm :=
  unfold armed in *; cbn;
  eapply disarmed_later; cycle 1;
  [ exact Harm
  | let t := fresh "t" in let Ht := fresh "Ht" in
    cbn; intros t Ht; left;
    try (apply list_elem_of_filter in Ht as [_ Ht]); exact Ht ].

(** A generation without armed timer stays so, and no read of the
    suppressed errors starts for it, for as long as its suppression
    folder emits no event. *)
Lemma step_keeps_disarmed (i : Input) (s : Process) (g : nat) :
  is_suppression_event g i = false →
  armed g s = [] →
  armed g (step i s).1.2 = [] ∧ SuppressedErrorsRead g ∉ (step i s).2.
Proof.
  intros Hi Harm. destruct i as [opts wopts| g0 t k p | g0 t err | n v | ms].
  - rewrite watchFiles_installs. cbn. split; [still_disarmed Harm|].
    unfold watchFiles_calls.
    destruct (isFlushingStdio s), (readmeWatcher (new_generation opts wopts)),
      (configurationWatcher_of opts wopts); cbn; not_in_calls.
  - destruct (decide (t = SuppressionFolder)) as [->|Hne].
    + cbn in Hi. apply bool_decide_eq_false in Hi.
      destruct (generations s !! g0) as [G0|] eqn:Hg0.
      * assert (Hstep : step (Emit g0 SuppressionFolder k p) s
          = (tt,
             set_generations
               (alter (set_suppressedErrorsTimeout (Some (nextTimer s))) g0 (generations s))
               (set_nextTimer (S (nextTimer s))
                  (set_timers
                     (match suppressedErrorsTimeout G0 with
                      | Some i => filter (λ t, timer_id t ≠ i) (timers s)
                      | None => timers s
                      end ++ [mkTimer (nextTimer s) (now s + 20) g0]) s)),
             [])).
        { hunfold. munfold. rewrite Hg0. destruct k; cbn;
            destruct (suppressedErrorsTimeout G0); by destruct s. }
        rewrite Hstep. cbn [fst snd]. split; [|by intros ?%elem_of_nil].
        unfold armed in *. cbn. eapply disarmed_later; [|exact Harm]. cbn.
        intros t [Ht | ->%list_elem_of_singleton]%elem_of_app; [left | by right].
        destruct (suppressedErrorsTimeout G0); [|done].
        by apply list_elem_of_filter in Ht as [_ Ht].
      * assert (Hstep : step (Emit g0 SuppressionFolder k p) s = (tt, s, [])).
        { hunfold. munfold. by rewrite Hg0. }
        rewrite Hstep. split; [done | by intros ?%elem_of_nil].
    + destruct t; try done; step_cases; (split; [still_disarmed Harm | not_in_calls]).
  - step_cases; (split; [still_disarmed Harm | not_in_calls]).
  - step_cases; (split; [still_disarmed Harm | not_in_calls]).
  - destruct (elapse_of_generation s g ms) as (Hc & Harm' & _).
    rewrite Harm in Hc, Harm'. split; [exact Harm'|].
    intros Hin.
    assert (Hf : SuppressedErrorsRead g ∈ List.filter (refresh_of g) (step (Elapse ms) s).2).
    { apply list_elem_of_In, filter_In. split; [by apply list_elem_of_In|].
      cbn. by apply bool_decide_eq_true. }
    rewrite Hc in Hf. by apply elem_of_nil in Hf.
Qed.

Lemma disarmed_generation_reads_nothing (inputs : list Input) (s : Process) (g : nat) :
  Forall (λ i, is_suppression_event g i = false) inputs →
  armed g s = [] →
  SuppressedErrorsRead g ∉ calls_of inputs s.
Proof.
  intros Hall. revert s. induction Hall as [|i inputs Hi _ IH]; intros s Harm.
  - by intros ?%elem_of_nil.
  - destruct (step_keeps_disarmed i s g Hi Harm) as [Harm1 Hnot].
    rewrite calls_of_cons. intros [Hin|Hin]%elem_of_app; [done|].
    by apply (IH _ Harm1).
Qed.

Lemma filter_delete_other (P : nat * Task → bool) (l : list (nat * Task)) (n : nat)
    (x : nat * Task) :
  l !! n = Some x → P x = false → List.filter P (delete n l) = List.filter P l.
Proof.
  revert n. induction l as [|y l IH]; intros [|n] Hn Hx; try done.
  - cbn in Hn. simplify_eq. cbn. by rewrite Hx.
  - cbn in Hn. change (delete (S n) (y :: l)) with (y :: delete n l).
    cbn [List.filter]. by rewrite (IH n Hn Hx).
Qed.

(** X5.  Both restarts cancel the timer of the generation: after the
    step that rebinds [runReview], no timer of the generation is armed,
    and for as long as its suppression folder emits no further event
    (the watcher is closed in that same step), no read of the suppressed
    errors starts for the generation, whatever else happens.  A read
    that is under way is not cancelled: the handlers that wait for one
    are still suspended after the step. *)
Theorem restart_cancels_the_refresh
    (s : Process) (n g : nat) (G : Generation) (newValue : Json) (inputs : list Input) :
  generations s !! g = Some G →
  (∀ t, t ∈ armed g s → suppressedErrorsTimeout G = Some (timer_id t)) →
  Forall (λ i, is_suppression_event g i = false) inputs →
  (pending s !! n = Some (g, ElmJsonAwaitRead) →
   JSON_stringify newValue ≠ JSON_stringify (elmJsonContent G) →
   let s1 := (step (Resolve n (VJson newValue)) s).1.2 in
   armed g s1 = []
   ∧ (SuppressedErrorsRead g ∉ calls_of inputs s1)
   ∧ List.filter (reads_suppressedErrors g) (pending s1)
     = List.filter (reads_suppressedErrors g) (pending s))
  ∧ (pending s !! n = Some (g, ConfigurationAwaitClose) →
     let s1 := (step (Resolve n VUnit) s).1.2 in
     armed g s1 = []
     ∧ (SuppressedErrorsRead g ∉ calls_of inputs s1)
     ∧ List.filter (reads_suppressedErrors g) (pending s1)
       = List.filter (reads_suppressedErrors g) (pending s)).
Proof.
  intros Hg Htr Hall. split.
  - intros Hn Hne s1. subst s1.
    rewrite (elmJson_restart_begins s n g G newValue Hn Hg Hne). cbn [fst snd].
    set (s0 := set_generations (alter (set_elmJsonContent newValue) g (generations s)) s).
    assert (Harm : armed g
              (set_pending (delete n (pending s) ++ [(g, ElmJsonAwaitClose)])
                 (restarting g G s0)) = []).
    { exact (cancelled_timer_leaves_none s g G Htr). }
    split; [exact Harm|]. split; [by apply disarmed_generation_reads_nothing|].
    cbn. rewrite List.filter_app. cbn. rewrite app_nil_r.
    by apply (filter_delete_other _ _ _ _ Hn).
  - intros Hn s1. subst s1.
    rewrite (configuration_restart_begins s n g G Hn Hg). cbn [fst snd].
    assert (Harm : armed g
              (set_pending (delete n (pending s) ++ [(g, RestartAwaitClose)])
                 (restarting g G s)) = []).
    { exact (cancelled_timer_leaves_none s g G Htr). }
    split; [exact Harm|]. split; [by apply disarmed_generation_reads_nothing|].
    cbn. rewrite List.filter_app. cbn. rewrite app_nil_r.
    by apply (filter_delete_other _ _ _ _ Hn).
Qed.

Lemma restart_calls_request_no_review (g g' : nat) (G : Generation) (msg : string) :
  (RequestReview g' ∉ elmJson_teardown g G)
  ∧ (RequestReview g' ∉ restart_notice G (ConsoleLog msg) ++ restart_teardown g G).
Proof.
  unfold elmJson_teardown, restart_notice, restart_teardown.
  destruct (readmeWatcher G), (configurationWatcher G),
    (bool_decide (report (options G) ≠ "json")), (debug (options G));
    split; cbn; not_in_calls.
Qed.

(** X6.  From the step of either restart that rebinds [runReview], no
    review of the generation is forwarded to the runner any more,
    whatever happens next: events of its watchers, reads that end,
    timers, or new calls of [watchFiles]. *)
Theorem restart_silences_the_generation
    (s : Process) (n g : nat) (G : Generation) (newValue : Json) (inputs : list Input) :
  generations s !! g = Some G →
  (pending s !! n = Some (g, ElmJsonAwaitRead) →
   JSON_stringify newValue ≠ JSON_stringify (elmJsonContent G) →
   RequestReview g ∉ calls_of (Resolve n (VJson newValue) :: inputs) s)
  ∧ (pending s !! n = Some (g, ConfigurationAwaitClose) →
     RequestReview g ∉ calls_of (Resolve n VUnit :: inputs) s).
Proof.
  intros Hg. split.
  - intros Hn Hne. rewrite calls_of_cons.
    rewrite (elmJson_restart_begins s n g G newValue Hn Hg Hne). cbn [fst snd].
    intros [Hin|Hin]%elem_of_app.
    + by apply (restart_calls_request_no_review g g G EmptyString) in Hin.
    + revert Hin.
      apply (disabled_generation_requests_no_review _ _ g
               (set_runReview DoesNothing (set_elmJsonContent newValue G))); [|done].
      cbn. by rewrite !list_lookup_alter_eq, Hg.
  - intros Hn. rewrite calls_of_cons.
    rewrite (configuration_restart_begins s n g G Hn Hg). cbn [fst snd].
    intros [Hin|Hin]%elem_of_app.
    + by apply (restart_calls_request_no_review g g G) in Hin.
    + revert Hin.
      apply (disabled_generation_requests_no_review _ _ g (set_runReview DoesNothing G));
        [|done].
      cbn. by rewrite !list_lookup_alter_eq, Hg.
Qed.

(** ** The records and the cache in every reachable state *)

Lemma later_record_refl (f : ElmFile) : later_record f f.
Proof. split; [done | by left]. Qed.

Lemma later_heap_refl (h : list ElmFile) : later_heap h h.
Proof. intros r f Hr. exists f. split; [done | apply later_record_refl]. Qed.

Lemma later_heap_trans (h1 h2 h3 : list ElmFile) :
  later_heap h1 h2 → later_heap h2 h3 → later_heap h1 h3.
Proof.
  intros H12 H23 r f Hr.
  destruct (H12 r f Hr) as (f2 & Hr2 & Hp2 & Ha2).
  destruct (H23 r f2 Hr2) as (f3 & Hr3 & Hp3 & Ha3).
  exists f3. split; [done|]. split; [congruence|].
  destruct Ha3 as [->|Ha3]; [done | by right].
Qed.

Lemma later_heap_app (h more : list ElmFile) : later_heap h (h ++ more).
Proof.
  intros r f Hr. exists f. split; [by apply lookup_app_l_Some | apply later_record_refl].
Qed.

Lemma later_heap_insert (h : list ElmFile) (r : nat) (f : ElmFile) (c : string) :
  h !! r = Some f → later_heap h (<[r := mkElmFile (path f) c None]> h).
Proof.
  intros Hr r' f' Hr'. destruct (decide (r = r')) as [<-|Hne].
  - exists (mkElmFile (path f) c None).
    rewrite list_lookup_insert_eq by (by eapply lookup_lt_Some).
    split; [done|]. split; [cbn; congruence | by right].
  - exists f'. rewrite list_lookup_insert_ne by done.
    split; [done | apply later_record_refl].
Qed.

Ltac heap_is_later :=
  cbn;
  first [ apply later_heap_refl
        | apply later_heap_app
        | eapply later_heap_insert; eassumption ].

Lemma later_cache_same (s s' : Process) :
  filesInMemoryCache s' = filesInMemoryCache s → later_cache s s'.
Proof. intros Hc p r Hr. left. by rewrite <- Hc. Qed.

Lemma later_cache_insert (s s' : Process) (f : ElmFile) (r : nat) :
  filesInMemoryCache s' = <[path f := r]> (filesInMemoryCache s) →
  heap s' !! r = Some f →
  later_cache s s'.
Proof.
  intros Hc Hf p r' Hr'. rewrite Hc in Hr'.
  destruct (decide (path f = p)) as [<-|Hne].
  - rewrite lookup_insert_eq in Hr'. simplify_eq. right. by exists f.
  - rewrite lookup_insert_ne in Hr' by done. by left.
Qed.

Ltac cache_is_later :=
  first [ apply later_cache_same; reflexivity
        | eapply later_cache_insert; [reflexivity | cbn; eassumption] ].

(** What [filesWereUpdated] leaves in the cache. *)
Lemma registered_lookup (h : list ElmFile) (rs : list nat) (c : gmap string nat)
    (p : string) (r : nat) :
  registered h c rs !! p = Some r →
  c !! p = Some r ∨ ∃ f, h !! r = Some f ∧ path f = p.
Proof.
  unfold registered. revert c. induction rs as [|r0 rs IH]; intros c Hr; [by left|].
  cbn in Hr. destruct (IH _ Hr) as [Hc|Hf]; [|by right].
  destruct (h !! r0) as [f0|] eqn:Hr0; [|by left].
  destruct (decide (path f0 = p)) as [<-|Hne].
  - rewrite lookup_insert_eq in Hc. simplify_eq. right. by exists f0.
  - rewrite lookup_insert_ne in Hc by done. by left.
Qed.

(** One step: the records stay where they are, and the cache only gains
    entries for records of the heap. *)
Lemma step_later_heap_and_cache (i : Input) (s : Process) :
  later_heap (heap s) (heap (step i s).1.2) ∧ later_cache s (step i s).1.2.
Proof.
  destruct i as [opts wopts| g0 t k p | g0 t err | n v | ms].
  - rewrite watchFiles_installs. cbn. split; [apply later_heap_app|].
    intros p r Hr. cbn in Hr. by apply registered_lookup in Hr.
  - step_cases; (split; [heap_is_later | cache_is_later]).
  - step_cases; (split; [heap_is_later | cache_is_later]).
  - step_cases; (split; [heap_is_later | cache_is_later]).
  - rewrite elapse_fires. cbn. split; [heap_is_later | cache_is_later].
Qed.

Lemma run_later_heap (inputs : list Input) (s : Process) :
  later_heap (heap s) (heap (state_after inputs s)).
Proof.
  revert s. induction inputs as [|i inputs IH]; intros s; [apply later_heap_refl|].
  rewrite state_after_cons. eapply later_heap_trans; [|apply IH].
  apply step_later_heap_and_cache.
Qed.

(** X7.  A record never moves and never changes its path: whatever the
    process does next, the address still holds a record with the same
    path, and that record is either the very same or has its parsed
    form reset to [null]. *)
Theorem records_keep_address_and_path
    (inputs : list Input) (s : Process) (r : nat) (f : ElmFile) :
  heap s !! r = Some f →
  ∃ f', heap (state_after inputs s) !! r = Some f'
        ∧ path f' = path f
        ∧ (f' = f ∨ ast f' = None).
Proof. intros Hr. by apply (run_later_heap inputs s). Qed.

Lemma step_keeps_cache_consistent (i : Input) (s : Process) :
  cache_consistent s → cache_consistent (step i s).1.2.
Proof.
  intros Hs p r Hr. destruct (step_later_heap_and_cache i s) as [Hh Hc].
  destruct (Hc p r Hr) as [Hold|Hnew]; [|done].
  destruct (Hs p r Hold) as (f & Hf & Hp).
  destruct (Hh r f Hf) as (f' & Hf' & Hp' & _). exists f'. split; [done | congruence].
Qed.

(** X8.  In every state the process can reach, each entry of the file
    cache points to a record that exists, and the key of the entry is
    the path of that record. *)
Theorem cache_entries_are_records (inputs : list Input) (p : string) (r : nat) :
  filesInMemoryCache (state_after inputs initial) !! p = Some r →
  ∃ f, heap (state_after inputs initial) !! r = Some f ∧ path f = p.
Proof.
  revert p r. change (cache_consistent (state_after inputs initial)).
  assert (H : ∀ s, cache_consistent s → cache_consistent (state_after inputs s)).
  { induction inputs as [|i inputs IH]; intros s Hs; [done|].
    rewrite state_after_cons. by apply IH, step_keeps_cache_consistent. }
  apply H. intros p r Hr. cbn in Hr. by rewrite lookup_empty in Hr.
Qed.

Lemma registered_keeps (h : list ElmFile) (rs : list nat) (c : gmap string nat) (p : string) :
  is_Some (c !! p) → is_Some (registered h c rs !! p).
Proof.
  unfold registered. revert c. induction rs as [|r0 rs IH]; intros c Hc; [done|].
  cbn. apply IH. destruct (h !! r0) as [f0|]; [|done].
  destruct (decide (path f0 = p)) as [<-|Hne].
  - rewrite lookup_insert_eq. by eexists.
  - by rewrite lookup_insert_ne.
Qed.

Ltac path_is_kept Hp :=
  cbn; try exact Hp;
  match goal with
  | |- is_Some (<[?k := _]> _ !! ?p) =>
      destruct (decide (k = p)) as [<-|?];
      [rewrite lookup_insert_eq; by eexists | by rewrite lookup_insert_ne]
  end.

Lemma step_keeps_every_path (i : Input) (s : Process) (p : string) :
  is_Some (filesInMemoryCache s !! p) → is_Some (filesInMemoryCache (step i s).1.2 !! p).
Proof.
  intros Hp. destruct i as [opts wopts| g0 t k p0 | g0 t err | n v | ms].
  - rewrite watchFiles_installs. cbn. by apply registered_keeps.
  - step_cases; path_is_kept Hp.
  - step_cases; path_is_kept Hp.
  - step_cases; path_is_kept Hp.
  - rewrite elapse_fires. path_is_kept Hp.
Qed.

(** X9.  No handler ever removes a path from the file cache, [unlink]
    included, and neither does a restart or a new call of [watchFiles]:
    a path the cache knows stays known for the rest of the process. *)
Theorem cache_never_forgets_a_path (inputs : list Input) (s : Process) (p : string) :
  is_Some (filesInMemoryCache s !! p) →
  is_Some (filesInMemoryCache (state_after inputs s) !! p).
Proof.
  revert s. induction inputs as [|i inputs IH]; intros s Hp; [done|].
  rewrite state_after_cons. by apply IH, step_keeps_every_path.
Qed.

(** ** What [fileWatcher] excludes *)

Lemma run_keeps_cache_consistent (inputs : list Input) (s : Process) :
  cache_consistent s → cache_consistent (state_after inputs s).
Proof.
  revert s. induction inputs as [|i inputs IH]; intros s Hs; [done|].
  rewrite state_after_cons. by apply IH, step_keeps_cache_consistent.
Qed.

(** The [add] handler excludes no path: whatever the path of the event,
    the file is read and the record is sent. *)
Lemma add_always_notifies (s : Process) (g : nat) (G : Generation) (p c : string) :
  cache_consistent s →
  generations s !! g = Some G →
  ∃ r, calls_of [Emit g SourceFiles Add p; Resolve (length (pending s)) (VString c)] s
       = [DebugLog (file_message G (relativePath_of p) " has been added");
          FsReadFile (relativePath_of p);
          CollectFile g r]
         ++ runReview_calls g G.
Proof.
  intros Hs Hg. rewrite !calls_of_cons, calls_of_nil, app_nil_r.
  destruct (filesInMemoryCache s !! relativePath_of p) as [r|] eqn:Hc.
  - destruct (Hs _ _ Hc) as (f & Hf & _). exists r.
    rewrite (fileWatcher_add_known s g r G p Hg Hc). cbn [fst snd].
    by rewrite (fileWatcher_add_read_known _ (length (pending s)) g r G (relativePath_of p) c f)
      by (first [apply lookup_last_task | done]).
  - exists (length (heap s)).
    rewrite (fileWatcher_add_unknown s g G p Hg Hc). cbn [fst snd].
    by rewrite (fileWatcher_add_read_new _ (length (pending s)) g (length (heap s)) G
                  (relativePath_of p) c)
      by (first [apply lookup_last_task | apply lookup_fresh_record | done]).
Qed.

(** C7, what the code does about it.  Whatever the options and the
    project, [watchFiles] creates one watcher of source files: on the
    globs [directory/**/*.elm] of the source directories, with the four
    [ignored] patterns [node_modules], [elm-stuff], [.*] and
    [**/ElmjutsuDumMyM0DuL3.elm].  The generation keeps this watcher for
    as long as the process runs.  The program excludes nothing itself:
    an [add] that the watcher emits is handled the same way for every
    path, one below a directory named [node_modules] included (the file
    is read, the record sent, [runReview()] called).  What is excluded is
    what chokidar makes of the four patterns. *)
Theorem fileWatcher_ignored_is_fixed
    (before inputs : list Input) (opts : Options) (wopts : WatchOptions) (p c : string) :
  let s := state_after before initial in
  let g := length (generations s) in
  let s' := state_after (CallWatchFiles opts wopts :: inputs) s in
  fileWatcher_of wopts
  = mkWatcher (map (λ directory, makePathOsAgnostic (directory +:+ "/**/*.elm"))
                   (sourceDirectories wopts))
              ["node_modules"; "elm-stuff"; ".*"; "**/ElmjutsuDumMyM0DuL3.elm"] true
  ∧ ChokidarWatch g SourceFiles (fileWatcher_of wopts)
    ∈ (step (CallWatchFiles opts wopts) s).2
  ∧ (∀ w, ChokidarWatch g SourceFiles w ∈ (step (CallWatchFiles opts wopts) s).2 →
          w = fileWatcher_of wopts)
  ∧ ∃ G r, generations s' !! g = Some G
           ∧ fileWatcher G = fileWatcher_of wopts
           ∧ calls_of [Emit g SourceFiles Add p; Resolve (length (pending s')) (VString c)] s'
             = [DebugLog (file_message G (relativePath_of p) " has been added");
                FsReadFile (relativePath_of p);
                CollectFile g r]
               ++ runReview_calls g G.
Proof.
  intros s g s'.
  assert (Hnew : generations (step (CallWatchFiles opts wopts) s).1.2 !! g
                 = Some (new_generation opts wopts)).
  { rewrite watchFiles_installs. cbn. apply lookup_fresh_generation. }
  destruct (run_later_closure inputs _ g _ Hnew) as (G & HG & _ & Hw & _).
  assert (Hs' : generations s' !! g = Some G).
  { subst s'. by rewrite state_after_cons. }
  assert (Hcons : cache_consistent s').
  { subst s' s. rewrite <- state_after_app. apply run_keeps_cache_consistent.
    intros q r Hr. cbn in Hr. by rewrite lookup_empty in Hr. }
  split; [done|]. split; [|split].
  - rewrite watchFiles_installs. cbn. unfold watchFiles_calls.
    rewrite !elem_of_app. right. right. right. left. left.
  - intros w. rewrite watchFiles_installs. cbn. unfold watchFiles_calls.
    destruct (isFlushingStdio s), (readmeWatcher (new_generation opts wopts)),
      (configurationWatcher_of opts wopts); cbn; not_in_calls; by simplify_eq.
  - destruct (add_always_notifies s' g G p c Hcons Hs') as (r & Hr).
    exists G, r. by rewrite Hw.
Qed.

(** ** The cache after [watchFiles] *)

Lemma registered_snoc (h : list ElmFile) (c : gmap string nat) (rs : list nat) (r : nat) :
  registered h c (rs ++ [r])
  = match h !! r with
    | Some f => <[path f := r]> (registered h c rs)
    | None => registered h c rs
    end.
Proof. unfold registered. by rewrite foldl_app. Qed.

Lemma registered_files (h : list ElmFile) (c : gmap string nat) (base : nat)
    (files : list ElmFile) :
  NoDup (path <$> files) →
  (∀ i f, files !! i = Some f → h !! (base + i) = Some f) →
  ∀ i f, files !! i = Some f →
         registered h c (seq base (length files)) !! path f = Some (base + i).
Proof.
  induction files as [|x files IH] using rev_ind; intros Hnd Hh i f Hi; [done|].
  rewrite fmap_app in Hnd. apply NoDup_app in Hnd as (Hnd & Hnot & _).
  rewrite length_app, Nat.add_1_r, seq_S, registered_snoc.
  rewrite (Hh (length files) x) by apply list_lookup_middle, eq_refl.
  apply lookup_snoc_Some in Hi as [[Hlt Hi] | [-> ->]].
  - rewrite lookup_insert_ne.
    + apply IH; [done| |done]. intros j f' Hj. apply Hh. by apply lookup_app_l_Some.
    + intros Heq. apply (Hnot (path f)).
      * apply list_elem_of_fmap. exists f. split; [done|]. by eapply list_elem_of_lookup_2.
      * rewrite <- Heq. cbn. left.
  - apply lookup_insert_eq.
Qed.

Lemma registered_elsewhere (h : list ElmFile) (rs : list nat) (c : gmap string nat)
    (p : string) :
  (∀ r f, r ∈ rs → h !! r = Some f → path f ≠ p) →
  registered h c rs !! p = c !! p.
Proof.
  unfold registered. revert c. induction rs as [|r0 rs IH]; intros c Hrs; [done|].
  cbn. rewrite IH by (intros r f Hr; apply Hrs; by right).
  destruct (h !! r0) as [f0|] eqn:Hr0; [|done].
  rewrite lookup_insert_ne; [done|]. apply (Hrs r0 f0); [left | done].
Qed.

Lemma lookup_seeded (h files : list ElmFile) (i : nat) (f : ElmFile) :
  files !! i = Some f → (h ++ files) !! (length h + i) = Some f.
Proof. intros Hi. by rewrite lookup_app_r, Nat.add_comm, Nat.add_sub by lia. Qed.

(** X10.  [watchFiles] seeds the cache with [elmFiles]: when their paths
    are distinct, each file is found under its path, as the record given;
    paths that are not among them keep the entry they had.  A first
    [change] of a seeded file that reads the seeded source is silent. *)
Theorem watchFiles_seeds_the_cache
    (opts : Options) (wopts : WatchOptions) (s : Process) (i : nat) (f : ElmFile)
    (p : string) :
  NoDup (path <$> elmFiles wopts) →
  elmFiles wopts !! i = Some f →
  relativePath_of p = path f →
  let g := length (generations s) in
  let s' := (step (CallWatchFiles opts wopts) s).1.2 in
  filesInMemoryCache s' !! path f = Some (length (heap s) + i)
  ∧ heap s' !! (length (heap s) + i) = Some f
  ∧ (∀ q, q ∉ path <$> elmFiles wopts →
          filesInMemoryCache s' !! q = filesInMemoryCache s !! q)
  ∧ run [Emit g SourceFiles Change p; Resolve (length (pending s)) (VString (source f))] s'
    = (tt, s', [FsReadFile (path f)]).
Proof.
  intros Hnd Hi Hp g s'. subst g s'. rewrite watchFiles_installs. cbn [fst snd].
  set (s' := set_generations _ _).
  assert (Hc : filesInMemoryCache s' !! path f = Some (length (heap s) + i)).
  { subst s'. cbn. apply registered_files; [done| |done].
    intros j f' Hj. by apply lookup_seeded. }
  assert (Hh : heap s' !! (length (heap s) + i) = Some f).
  { subst s'. cbn. by apply lookup_seeded. }
  assert (Hg : generations s' !! length (generations s) = Some (new_generation opts wopts)).
  { subst s'. cbn. apply lookup_fresh_generation. }
  split; [exact Hc|]. split; [exact Hh|]. split.
  - intros q Hq. subst s'. cbn. apply registered_elsewhere.
    intros r f' [Hge Hlt]%elem_of_seq Hr Hpath. apply Hq.
    apply list_elem_of_fmap. exists f'. split; [done|].
    rewrite lookup_app_r in Hr by lia. by eapply list_elem_of_lookup_2.
  - rewrite <- Hp in Hc.
    eapply eq_trans.
    { eapply run_cons_eq; [by eapply fileWatcher_change_known|].
      eapply run_cons_eq; [|apply run_nil].
      eapply (fileWatcher_change_same _ _ _ _ _ _ f); [|exact Hg|exact Hh].
      subst s'. cbn. apply lookup_last_task. }
    cbn. rewrite delete_last_task, Hp. subst s'. by destruct s.
Qed.

(** ** Calls of [onError] *)

Lemma step_calls_onError (i : Input) (s : Process) (g : nat) (err : string) :
  OnError g err ∈ (step i s).2 →
  ∃ t, i = EmitError g t err ∧ (t = ReadmeFile ∨ t = SourceFiles ∨ t = SuppressionFolder).
Proof.
  destruct i as [opts wopts| g0 t k p | g0 t err0 | n v | ms].
  - rewrite watchFiles_installs. cbn. unfold watchFiles_calls.
    destruct (isFlushingStdio s), (readmeWatcher (new_generation opts wopts)),
      (configurationWatcher_of opts wopts); cbn; not_in_calls.
  - step_cases; not_in_calls.
  - step_cases; not_in_calls; simplify_eq; eauto.
  - step_cases; not_in_calls.
  - rewrite elapse_fires. cbn. by intros (t & ? & _)%list_elem_of_fmap.
Qed.

(** X11.  [onError] is called only for an [error] event of
    [readmeWatcher], [fileWatcher] or [suppressedErrorsWatcher], with the
    error of that event: no other handler, no read that ends, no timer
    and no restart calls it. *)
Theorem onError_only_answers_errors
    (inputs : list Input) (s : Process) (g : nat) (err : string) :
  OnError g err ∈ calls_of inputs s →
  ∃ t, EmitError g t err ∈ inputs
       ∧ (t = ReadmeFile ∨ t = SourceFiles ∨ t = SuppressionFolder).
Proof.
  revert s. induction inputs as [|i inputs IH]; intros s; [by intros ?%elem_of_nil|].
  rewrite calls_of_cons. intros [Hin|Hin]%elem_of_app.
  - destruct (step_calls_onError i s g err Hin) as (t & -> & Ht).
    exists t. split; [left | done].
  - destruct (IH _ Hin) as (t & Ht & Hk). exists t. split; [by right | done].
Qed.

(** ** Watchers that are not installed *)

Lemma step_closes_installed (i : Input) (s : Process) (g : nat) (G : Generation) (t : Target) :
  generations s !! g = Some G →
  Close g t ∈ (step i s).2 →
  match t with
  | ReadmeFile => is_Some (readmeWatcher G)
  | ConfigurationFiles => is_Some (configurationWatcher G)
  | _ => True
  end.
Proof.
  intros Hg. destruct i as [opts wopts| g0 t0 k p | g0 t0 err | n v | ms].
  - rewrite watchFiles_installs. cbn. unfold watchFiles_calls.
    destruct (isFlushingStdio s), (readmeWatcher (new_generation opts wopts)),
      (configurationWatcher_of opts wopts); cbn; not_in_calls.
  - step_cases; not_in_calls; simplify_eq; by eauto.
  - step_cases; not_in_calls; simplify_eq; by eauto.
  - step_cases; not_in_calls; simplify_eq; by eauto.
  - rewrite elapse_fires. cbn. by intros (x & ? & _)%list_elem_of_fmap.
Qed.

Lemma run_closes_installed (inputs : list Input) (s : Process) (g : nat) (G : Generation)
    (t : Target) :
  generations s !! g = Some G →
  Close g t ∈ calls_of inputs s →
  match t with
  | ReadmeFile => is_Some (readmeWatcher G)
  | ConfigurationFiles => is_Some (configurationWatcher G)
  | _ => True
  end.
Proof.
  revert s G. induction inputs as [|i inputs IH]; intros s G Hg; [by intros ?%elem_of_nil|].
  rewrite calls_of_cons. intros [Hin|Hin]%elem_of_app.
  - by eapply step_closes_installed.
  - destruct (step_later_closure i s g G Hg) as (G1 & Hg1 & (_ & _ & Hr & Hc & _)).
    specialize (IH _ G1 Hg1 Hin). destruct t; try done; congruence.
Qed.

Lemma watchFiles_closes_nothing (opts : Options) (wopts : WatchOptions) (s : Process)
    (g : nat) (t : Target) :
  Close g t ∉ (step (CallWatchFiles opts wopts) s).2.
Proof.
  rewrite watchFiles_installs. cbn. unfold watchFiles_calls.
  destruct (isFlushingStdio s), (readmeWatcher (new_generation opts wopts)),
    (configurationWatcher_of opts wopts); cbn; not_in_calls.
Qed.

(** X12.  The guard of [watchConfiguration]: without a path of the
    review [elm.json] (absent, or the empty string), or when
    [watchConfig] is off, no watcher is created for the configuration.
    For the rest of the process the events and errors named after that
    watcher do nothing, and no restart calls [close()] on it. *)
Theorem no_configurationWatcher_without_configuration
    (opts : Options) (wopts : WatchOptions) (s : Process) (inputs : list Input) :
  reviewElmJsonPath wopts = None
  ∨ reviewElmJsonPath wopts = Some EmptyString
  ∨ watchConfig opts = false →
  let g := length (generations s) in
  let s' := state_after (CallWatchFiles opts wopts :: inputs) s in
  (∀ w, ChokidarWatch g ConfigurationFiles w ∉ (step (CallWatchFiles opts wopts) s).2)
  ∧ (∀ k p, step (Emit g ConfigurationFiles k p) s' = (tt, s', []))
  ∧ (∀ err, step (EmitError g ConfigurationFiles err) s' = (tt, s', []))
  ∧ Close g ConfigurationFiles ∉ calls_of (CallWatchFiles opts wopts :: inputs) s.
Proof.
  intros Hguard g s'.
  assert (Hnone : configurationWatcher_of opts wopts = None).
  { unfold configurationWatcher_of.
    destruct Hguard as [->|[->|Hw]]; [done|done|].
    destruct (reviewElmJsonPath wopts); [|done]. by rewrite Hw, orb_true_r. }
  assert (Hnew : generations (step (CallWatchFiles opts wopts) s).1.2 !! g
                 = Some (new_generation opts wopts)).
  { rewrite watchFiles_installs. cbn. apply lookup_fresh_generation. }
  destruct (run_later_closure inputs _ g _ Hnew) as (G & HG & _ & _ & _ & Hc & _).
  assert (Hs' : generations s' !! g = Some G).
  { subst s'. by rewrite state_after_cons. }
  cbn in Hc. rewrite Hnone in Hc.
  split; [|split; [|split]].
  - intros w. rewrite watchFiles_installs. cbn. unfold watchFiles_calls. rewrite Hnone.
    destruct (isFlushingStdio s), (readmeWatcher (new_generation opts wopts));
      cbn; not_in_calls.
  - intros k p. hunfold. munfold. rewrite Hs'. rewrite Hc. by destruct k.
  - intros err. hunfold. munfold. by rewrite Hs', Hc.
  - rewrite calls_of_cons. intros [Hin|Hin]%elem_of_app.
    + by apply watchFiles_closes_nothing in Hin.
    + apply (run_closes_installed _ _ g _ _ Hnew) in Hin. cbn in Hin.
      rewrite Hnone in Hin. by destruct Hin.
Qed.

(** X13.  Without a [readmePath] no watcher is created for the README.
    For the rest of the process the events and errors named after that
    watcher do nothing, and no restart calls [close()] on it. *)
Theorem no_readmeWatcher_without_readmePath
    (opts : Options) (wopts : WatchOptions) (s : Process) (inputs : list Input) :
  readmePath opts = None →
  let g := length (generations s) in
  let s' := state_after (CallWatchFiles opts wopts :: inputs) s in
  (∀ w, ChokidarWatch g ReadmeFile w ∉ (step (CallWatchFiles opts wopts) s).2)
  ∧ (∀ k p, step (Emit g ReadmeFile k p) s' = (tt, s', []))
  ∧ (∀ err, step (EmitError g ReadmeFile err) s' = (tt, s', []))
  ∧ Close g ReadmeFile ∉ calls_of (CallWatchFiles opts wopts :: inputs) s.
Proof.
  intros Hnone g s'.
  assert (Hnew : generations (step (CallWatchFiles opts wopts) s).1.2 !! g
                 = Some (new_generation opts wopts)).
  { rewrite watchFiles_installs. cbn. apply lookup_fresh_generation. }
  destruct (run_later_closure inputs _ g _ Hnew) as (G & HG & _ & _ & Hr & _ & _).
  assert (Hs' : generations s' !! g = Some G).
  { subst s'. by rewrite state_after_cons. }
  cbn in Hr. rewrite Hnone in Hr.
  split; [|split; [|split]].
  - intros w. rewrite watchFiles_installs. cbn. unfold watchFiles_calls. cbn.
    rewrite Hnone.
    destruct (isFlushingStdio s), (configurationWatcher_of opts wopts); cbn; not_in_calls.
  - intros k p. hunfold. munfold. rewrite Hs'. rewrite Hr. by destruct k.
  - intros err. hunfold. munfold. by rewrite Hs', Hr.
  - rewrite calls_of_cons. intros [Hin|Hin]%elem_of_app.
    + by apply watchFiles_closes_nothing in Hin.
    + apply (run_closes_installed _ _ g _ _ Hnew) in Hin. cbn in Hin.
      rewrite Hnone in Hin. by destruct Hin.
Qed.

(** ** The README *)

Lemma readmeWatcher_reads (s : Process) (g : nat) (G : Generation) (w : Watcher)
    (rp p : string) :
  generations s !! g = Some G →
  readmeWatcher G = Some w →
  readmePath (options G) = Some rp →
  step (Emit g ReadmeFile Add p) s
  = (tt, set_pending (pending s ++ [(g, ReadmeAddAwaitRead rp)]) s,
     [DebugLog "README.md has been added"; FsReadFile rp])
  ∧ step (Emit g ReadmeFile Change p) s
    = (tt, set_pending (pending s ++ [(g, ReadmeChangeAwaitRead rp)]) s, [FsReadFile rp]).
Proof. intros Hg Hw Hp. hunfold. munfold. by rewrite Hg, Hw, Hp. Qed.

Lemma readmeWatcher_add_sends (s : Process) (n g : nat) (G : Generation) (rp content : string) :
  pending s !! n = Some (g, ReadmeAddAwaitRead rp) →
  generations s !! g = Some G →
  step (Resolve n (VString content)) s
  = (tt, set_cachedReadme (Some (mkReadme rp content)) (set_pending (delete n (pending s)) s),
     CollectReadme g (mkReadme rp content) :: runReview_calls g G).
Proof.
  intros Hn Hg. hunfold. munfold. rewrite Hn. cbn. rewrite Hg.
  unfold runReview_calls. by destruct (runReview G).
Qed.

Lemma readmeWatcher_change_sends (s : Process) (n g : nat) (G : Generation)
    (rp content : string) :
  pending s !! n = Some (g, ReadmeChangeAwaitRead rp) →
  generations s !! g = Some G →
  step (Resolve n (VString content)) s
  = (tt, set_cachedReadme (Some (mkReadme rp content)) (set_pending (delete n (pending s)) s),
     if match cachedReadme s with
        | Some old => bool_decide (readme_content old ≠ content)
        | None => true
        end
     then [DebugLog "README.md has been changed"; CollectReadme g (mkReadme rp content)]
          ++ runReview_calls g G
     else []).
Proof.
  intros Hn Hg. hunfold. munfold. rewrite Hn. cbn.
  unfold runReview_calls.
  destruct (match cachedReadme s with
            | Some old => bool_decide (readme_content old ≠ content)
            | None => true
            end); cbn; [|done].
  rewrite Hg. by destruct (runReview G).
Qed.

(** X14.  An [add] of the README always stores the content read, sends
    [collectReadme] and calls [runReview()], also when the content is
    the cached one.  A [change] stores the content read as well, but
    sends and calls [runReview()] only when [AppState.readmeChanged]
    reports a change: with the cached content it is silent. *)
Theorem readme_add_always_notifies
    (s : Process) (g : nat) (G : Generation) (w : Watcher) (rp p content : string) :
  generations s !! g = Some G →
  readmeWatcher G = Some w →
  readmePath (options G) = Some rp →
  run [Emit g ReadmeFile Add p; Resolve (length (pending s)) (VString content)] s
  = (tt, set_cachedReadme (Some (mkReadme rp content)) s,
     [DebugLog "README.md has been added"; FsReadFile rp;
      CollectReadme g (mkReadme rp content)]
     ++ runReview_calls g G)
  ∧ run [Emit g ReadmeFile Change p; Resolve (length (pending s)) (VString content)] s
    = (tt, set_cachedReadme (Some (mkReadme rp content)) s,
       FsReadFile rp
       :: if match cachedReadme s with
             | Some old => bool_decide (readme_content old ≠ content)
             | None => true
             end
          then [DebugLog "README.md has been changed"; CollectReadme g (mkReadme rp content)]
               ++ runReview_calls g G
          else []).
Proof.
  intros Hg Hw Hp. destruct (readmeWatcher_reads s g G w rp p Hg Hw Hp) as [Hadd Hchange].
  split.
  - eapply eq_trans.
    { eapply run_cons_eq; [exact Hadd|].
      eapply run_cons_eq; [|apply run_nil].
      apply (readmeWatcher_add_sends _ _ g G); [apply lookup_last_task | exact Hg]. }
    cbn. rewrite delete_last_task, app_nil_r. by destruct s.
  - eapply eq_trans.
    { eapply run_cons_eq; [exact Hchange|].
      eapply run_cons_eq; [|apply run_nil].
      apply (readmeWatcher_change_sends _ _ g G); [apply lookup_last_task | exact Hg]. }
    cbn. rewrite delete_last_task, app_nil_r. by destruct s.
Qed.

(** ** Restarts that wait for the watchers to close *)

Ltac task_is_old :=
  left; first [eassumption | by eapply list_elem_of_delete_inv].

Ltac task_is_disabled Hin :=
  right; apply list_elem_of_singleton in Hin; simplify_eq;
  let H := fresh in
  intros [H|H]; try discriminate H;
  cbn; rewrite ?list_lookup_alter_eq;
  match goal with Hg : generations _ !! _ = Some _ |- _ => rewrite Hg end;
  cbn; by eauto.

Ltac task_is_old_or_disabled :=
  let Hin := fresh "Hin" in
  cbn; intros Hin;
  first [ task_is_old
        | apply elem_of_app in Hin as [Hin|Hin]; [task_is_old | task_is_disabled Hin] ].

Lemma step_suspends (i : Input) (s : Process) (g : nat) (t : Task) :
  (g, t) ∈ pending (step i s).1.2 →
  (g, t) ∈ pending s
  ∨ (awaits_close t →
     ∃ G, generations (step i s).1.2 !! g = Some G ∧ runReview G = DoesNothing).
Proof.
  destruct i as [opts wopts| g0 t0 k p | g0 t0 err | n v | ms].
  - rewrite watchFiles_installs. cbn. by left.
  - step_cases; task_is_old_or_disabled.
  - step_cases; task_is_old_or_disabled.
  - step_cases; task_is_old_or_disabled.
  - rewrite elapse_fires. cbn. intros [Hin|Hin]%elem_of_app; [by left|].
    right. apply list_elem_of_fmap in Hin as (x & Hx & _). simplify_eq.
    intros [H|H]; discriminate H.
Qed.

Lemma step_keeps_restarts_disabled (i : Input) (s : Process) :
  restarts_are_disabled s → restarts_are_disabled (step i s).1.2.
Proof.
  intros Hs g t Hin Ht. destruct (step_suspends i s g t Hin) as [Hold|Hnew]; [|by apply Hnew].
  destruct (Hs g t Hold Ht) as (G & Hg & Hr).
  destruct (step_later_closure i s g G Hg) as (G' & Hg' & (_ & _ & _ & _ & Hoff)).
  exists G'. split; [done | by apply Hoff].
Qed.

Lemma step_rebuilds (i : Input) (s : Process) (g : nat) :
  RebuildAndRewatch g ∈ (step i s).2 →
  ∃ t, (g, t) ∈ pending s ∧ awaits_close t.
Proof.
  destruct i as [opts wopts| g0 t0 k p | g0 t0 err | n v | ms].
  - rewrite watchFiles_installs. cbn. unfold watchFiles_calls.
    destruct (isFlushingStdio s), (readmeWatcher (new_generation opts wopts)),
      (configurationWatcher_of opts wopts); cbn; not_in_calls.
  - step_cases; not_in_calls.
  - step_cases; not_in_calls.
  - step_cases; not_in_calls; simplify_eq;
      (eexists; split; [by eapply list_elem_of_lookup_2 | first [by left | by right]]).
  - rewrite elapse_fires. cbn. by intros (x & ? & _)%list_elem_of_fmap.
Qed.

(** X15.  [rebuildAndRewatch] is called only for a generation whose
    [runReview] has been rebound: in every state the process can reach,
    a step that calls it finds the reviews of that generation off. *)
Theorem rebuild_only_after_reviews_are_off (inputs : list Input) (i : Input) (g : nat) :
  RebuildAndRewatch g ∈ (step i (state_after inputs initial)).2 →
  ∃ G, generations (state_after inputs initial) !! g = Some G
       ∧ runReview G = DoesNothing.
Proof.
  intros Hin. destruct (step_rebuilds _ _ _ Hin) as (t & Ht & Hclose).
  assert (H : ∀ s, restarts_are_disabled s → restarts_are_disabled (state_after inputs s)).
  { clear. induction inputs as [|i inputs IH]; intros s Hs; [done|].
    rewrite state_after_cons. by apply IH, step_keeps_restarts_disabled. }
  apply (H initial) with (t := t); [|done|done].
  intros g' t' Hin'. by apply elem_of_nil in Hin'.
Qed.

(** ** One timer for each generation *)

Lemma timers_fresh_later (s s' : Process) :
  timers_fresh s →
  timers s' `sublist_of` timers s →
  nextTimer s' = nextTimer s →
  timers_fresh s'.
Proof.
  intros [Hnd Hlt] Hsub Hnext. split.
  - eapply sublist_NoDup; [exact Hnd|]. by apply fmap_sublist.
  - intros t Ht. rewrite Hnext. apply Hlt. by eapply elem_of_sublist.
Qed.

Lemma suppression_event_keeps_fresh (s : Process) (g : nat) (k : EventKind) (p : string) :
  timers_fresh s → timers_fresh (step (Emit g SuppressionFolder k p) s).1.2.
Proof.
  intros [Hnd Hlt]. destruct (generations s !! g) as [G|] eqn:Hg.
  - assert (Hstep : (step (Emit g SuppressionFolder k p) s).1.2
      = set_generations
          (alter (set_suppressedErrorsTimeout (Some (nextTimer s))) g (generations s))
          (set_nextTimer (S (nextTimer s))
             (set_timers
                (match suppressedErrorsTimeout G with
                 | Some i => filter (λ t, timer_id t ≠ i) (timers s)
                 | None => timers s
                 end ++ [mkTimer (nextTimer s) (now s + 20) g]) s))).
    { hunfold. munfold. rewrite Hg. destruct k; cbn;
        destruct (suppressedErrorsTimeout G); by destruct s. }
    rewrite Hstep.
    assert (Hsub : match suppressedErrorsTimeout G with
                   | Some i => filter (λ t, timer_id t ≠ i) (timers s)
                   | None => timers s
                   end `sublist_of` timers s).
    { destruct (suppressedErrorsTimeout G); [apply sublist_filter | done]. }
    split; cbn.
    + rewrite fmap_app. apply NoDup_app. split; [|split].
      * eapply sublist_NoDup; [exact Hnd|]. by apply fmap_sublist.
      * intros i (t & Hi & Ht)%list_elem_of_fmap. cbn.
        intros Hnew%list_elem_of_singleton.
        specialize (Hlt t (elem_of_sublist _ _ _ Ht Hsub)). lia.
      * cbn. apply NoDup_singleton.
    + intros t [Ht | ->%list_elem_of_singleton]%elem_of_app; cbn; [|lia].
      specialize (Hlt t (elem_of_sublist _ _ _ Ht Hsub)). lia.
  - assert (Hstep : (step (Emit g SuppressionFolder k p) s).1.2 = s).
    { hunfold. munfold. by rewrite Hg. }
    by rewrite Hstep.
Qed.

Ltac still_fresh Hfr :=
  apply (timers_fresh_later _ _ Hfr); cbn;
  [ first [reflexivity | apply sublist_filter] | reflexivity ].

Lemma step_keeps_timers_fresh (i : Input) (s : Process) :
  timers_fresh s → timers_fresh (step i s).1.2.
Proof.
  intros Hfr. destruct i as [opts wopts| g0 t k p | g0 t err | n v | ms].
  - rewrite watchFiles_installs. still_fresh Hfr.
  - destruct (decide (t = SuppressionFolder)) as [->|Hne].
    + by apply suppression_event_keeps_fresh.
    + destruct t; try done; step_cases; still_fresh Hfr.
  - step_cases; still_fresh Hfr.
  - step_cases; still_fresh Hfr.
  - rewrite elapse_fires. still_fresh Hfr.
Qed.

Lemma reachable_timers (inputs : list Input) :
  timers_tracked (state_after inputs initial) ∧ timers_fresh (state_after inputs initial).
Proof.
  assert (H : ∀ s, timers_tracked s ∧ timers_fresh s →
                   timers_tracked (state_after inputs s) ∧ timers_fresh (state_after inputs s)).
  { induction inputs as [|i inputs IH]; intros s [Htr Hfr]; [done|].
    rewrite state_after_cons. apply IH.
    split; [by apply step_keeps_timers_tracked | by apply step_keeps_timers_fresh]. }
  apply H. split.
  - by intros t ?%elem_of_nil.
  - split; [apply NoDup_nil_2 | by intros t ?%elem_of_nil].
Qed.

(** X16.  At most one refresh is scheduled for a generation at any
    time: in every state the process can reach, a generation has no
    armed timer or exactly one. *)
Theorem one_timer_per_generation (inputs : list Input) (g : nat) :
  (length (armed g (state_after inputs initial)) ≤ 1)%nat.
Proof.
  destruct (reachable_timers inputs) as [Htr [Hnd _]].
  set (s := state_after inputs initial) in *.
  assert (Hsame : ∀ t1 t2, t1 ∈ armed g s → t2 ∈ armed g s → timer_id t1 = timer_id t2).
  { intros t1 t2 [Hg1 Hin1]%list_elem_of_filter [Hg2 Hin2]%list_elem_of_filter.
    destruct (Htr t1 Hin1) as (G1 & HG1 & Hid1).
    destruct (Htr t2 Hin2) as (G2 & HG2 & Hid2). congruence. }
  assert (Hnd' : NoDup (timer_id <$> armed g s)).
  { eapply sublist_NoDup; [exact Hnd|]. apply fmap_sublist, sublist_filter. }
  destruct (armed g s) as [|a [|b l]]; cbn; [lia | lia |].
  exfalso. cbn in Hnd'. apply NoDup_cons in Hnd' as [Hnot _]. apply Hnot.
  rewrite (Hsame a b); [left | left | right; left].
Qed.

(** ** Two [add] events for one path *)

Lemma lookup_second_fresh (h : list ElmFile) (a b x : ElmFile) :
  <[length h := x]> (h ++ [a; b]) !! S (length h) = Some b.
Proof. induction h as [|y h IH]; cbn; done. Qed.

Lemma insert_two_fresh (h : list ElmFile) (a b x y : ElmFile) :
  <[S (length h) := y]> (<[length h := x]> (h ++ [a; b])) = h ++ [x; y].
Proof. induction h as [|z h IH]; cbn; [done | by f_equal]. Qed.


Lemma lookup_first_fresh (h : list ElmFile) (a b y : ElmFile) :
  <[S (length h) := y]> (h ++ [a; b]) !! length h = Some a.
Proof. induction h as [|z h IH]; cbn; done. Qed.

Lemma insert_two_fresh_later (h : list ElmFile) (a b x y : ElmFile) :
  <[length h := x]> (<[S (length h) := y]> (h ++ [a; b])) = h ++ [x; y].
Proof. induction h as [|z h IH]; cbn; [done | by f_equal]. Qed.

Lemma lookup_second_record (h : list ElmFile) (a b : ElmFile) :
  (h ++ [a; b]) !! S (length h) = Some b.
Proof. induction h as [|z h IH]; cbn; done. Qed.

Lemma lookup_second_task (l : list (nat * Task)) (x y : nat * Task) :
  (l ++ [x; y]) !! S (length l) = Some y.
Proof. induction l as [|z l IH]; cbn; done. Qed.

Lemma delete_second_task (l : list (nat * Task)) (x y : nat * Task) :
  delete (S (length l)) (l ++ [x; y]) = l ++ [x].
Proof. induction l as [|z l IH]; cbn; [done | by f_equal]. Qed.

Lemma two_adds_suspended (s : Process) (g : nat) (G : Generation) (p : string) :
  generations s !! g = Some G →
  filesInMemoryCache s !! relativePath_of p = None →
  run [Emit g SourceFiles Add p; Emit g SourceFiles Add p] s
  = (tt,
     set_pending
       (pending s ++ [(g, FileAddAwaitRead (relativePath_of p) (length (heap s)) true);
                      (g, FileAddAwaitRead (relativePath_of p) (S (length (heap s))) true)])
       (set_heap (heap s ++ [mkElmFile (relativePath_of p) EmptyString None;
                             mkElmFile (relativePath_of p) EmptyString None]) s),
     [DebugLog (file_message G (relativePath_of p) " has been added");
      FsReadFile (relativePath_of p);
      DebugLog (file_message G (relativePath_of p) " has been added");
      FsReadFile (relativePath_of p)]).
Proof.
  intros Hg Hc. eapply eq_trans.
  { eapply run_cons_eq; [by apply fileWatcher_add_unknown|].
    eapply run_cons_eq; [|apply run_nil].
    by apply fileWatcher_add_unknown. }
  cbn. rewrite length_app. cbn [length]. rewrite Nat.add_1_r.
  rewrite <- !app_assoc. by destruct s.
Qed.

(** X17.  Two [add] events of a path the cache does not know, both
    received before either read ends, build two records.  Both are
    filled and sent, in the order in which the reads end; the cache
    keeps the record of the read that ends last, whichever of the two
    it is, and the other record is registered nowhere afterwards. *)
Theorem concurrent_adds_make_two_records
    (s : Process) (g : nat) (G : Generation) (p c1 c2 : string) :
  generations s !! g = Some G →
  filesInMemoryCache s !! relativePath_of p = None →
  run [Emit g SourceFiles Add p; Emit g SourceFiles Add p;
       Resolve (length (pending s)) (VString c1);
       Resolve (length (pending s)) (VString c2)] s
  = (tt,
     set_filesInMemoryCache
       (<[relativePath_of p := S (length (heap s))]> (filesInMemoryCache s))
       (set_heap (heap s ++ [mkElmFile (relativePath_of p) c1 None;
                             mkElmFile (relativePath_of p) c2 None]) s),
     [DebugLog (file_message G (relativePath_of p) " has been added");
      FsReadFile (relativePath_of p);
      DebugLog (file_message G (relativePath_of p) " has been added");
      FsReadFile (relativePath_of p);
      CollectFile g (length (heap s))]
     ++ runReview_calls g G
     ++ [CollectFile g (S (length (heap s)))]
     ++ runReview_calls g G)
  ∧ run [Emit g SourceFiles Add p; Emit g SourceFiles Add p;
         Resolve (S (length (pending s))) (VString c2);
         Resolve (length (pending s)) (VString c1)] s
    = (tt,
       set_filesInMemoryCache
         (<[relativePath_of p := length (heap s)]> (filesInMemoryCache s))
         (set_heap (heap s ++ [mkElmFile (relativePath_of p) c1 None;
                               mkElmFile (relativePath_of p) c2 None]) s),
       [DebugLog (file_message G (relativePath_of p) " has been added");
        FsReadFile (relativePath_of p);
        DebugLog (file_message G (relativePath_of p) " has been added");
        FsReadFile (relativePath_of p);
        CollectFile g (S (length (heap s)))]
       ++ runReview_calls g G
       ++ [CollectFile g (length (heap s))]
       ++ runReview_calls g G).
Proof.
  intros Hg Hc.
  set (rel := relativePath_of p). set (e := mkElmFile rel EmptyString None).
  split.
  - eapply eq_trans.
    { eapply run_cons_eq; [by apply fileWatcher_add_unknown|].
      eapply run_cons_eq; [by apply fileWatcher_add_unknown|].
      eapply run_cons_eq.
      { apply (fileWatcher_add_read_new _ _ g (length (heap s)) G rel c1); [|exact Hg|].
        - cbn. rewrite <- app_assoc. by apply list_lookup_middle.
        - cbn. rewrite <- app_assoc. by apply list_lookup_middle. }
      eapply run_cons_eq; [|apply run_nil].
      apply (fileWatcher_add_read_new _ _ g (S (length (heap s))) G rel c2); [|exact Hg|].
      - cbn. rewrite <- (app_assoc (pending s)). cbn. rewrite delete_middle.
        rewrite length_app. cbn [length]. rewrite Nat.add_1_r. apply lookup_last_task.
      - cbn. rewrite <- app_assoc. apply lookup_second_fresh. }
    cbn. fold rel. fold e.
    rewrite <- !(app_assoc (pending s)). cbn. rewrite !delete_middle, app_nil_r.
    rewrite <- !(app_assoc (heap s)). cbn [app].
    rewrite insert_insert_eq, insert_two_fresh, app_nil_r. by destruct s.
  - change [Emit g SourceFiles Add p; Emit g SourceFiles Add p;
            Resolve (S (length (pending s))) (VString c2);
            Resolve (length (pending s)) (VString c1)]
      with ([Emit g SourceFiles Add p; Emit g SourceFiles Add p]
            ++ [Resolve (S (length (pending s))) (VString c2);
                Resolve (length (pending s)) (VString c1)]).
    rewrite run_app, (two_adds_suspended s g G p Hg Hc). fold rel. fold e.
    erewrite run_cons_eq; cycle 1.
    { apply (fileWatcher_add_read_new _ _ g (S (length (heap s))) G rel c2); [|exact Hg|].
      - cbn. apply lookup_second_task.
      - cbn. apply lookup_second_record. }
    { eapply run_cons_eq; [|apply run_nil].
      apply (fileWatcher_add_read_new _ _ g (length (heap s)) G rel c1); [|exact Hg|].
      - cbn. rewrite delete_second_task. apply lookup_last_task.
      - cbn. apply lookup_first_fresh. }
    cbn. rewrite delete_second_task, delete_last_task.
    rewrite insert_insert_eq, insert_two_fresh_later, !app_nil_r.
    rewrite <- ?app_assoc. by destruct s.
Qed.

(** ** Two [change] events for one file *)

Lemma two_changes_suspended (s : Process) (g r : nat) (G : Generation) (p : string) :
  generations s !! g = Some G →
  filesInMemoryCache s !! relativePath_of p = Some r →
  run [Emit g SourceFiles Change p; Emit g SourceFiles Change p] s
  = (tt,
     set_pending (pending s ++ [(g, FileChangeAwaitRead (relativePath_of p) r);
                                (g, FileChangeAwaitRead (relativePath_of p) r)]) s,
     [FsReadFile (relativePath_of p); FsReadFile (relativePath_of p)]).
Proof.
  intros Hg Hc. eapply eq_trans.
  { eapply run_cons_eq; [by apply (fileWatcher_change_known _ g G p r)|].
    eapply run_cons_eq; [|apply run_nil].
    by apply (fileWatcher_change_known _ g G p r). }
  cbn. rewrite <- app_assoc. by destruct s.
Qed.

(** X18.  The comparison of the [change] handler is made when the read
    ends, against the record as it is then.  So of two [change] events
    of a cached file whose reads return the same new content, the first
    read to end updates the record and notifies, and the second finds
    the record up to date and is silent. *)
Theorem repeated_change_notifies_once
    (s : Process) (g r : nat) (G : Generation) (p c : string) (f : ElmFile) :
  generations s !! g = Some G →
  filesInMemoryCache s !! relativePath_of p = Some r →
  heap s !! r = Some f →
  source f ≠ c →
  run [Emit g SourceFiles Change p; Emit g SourceFiles Change p;
       Resolve (length (pending s)) (VString c);
       Resolve (length (pending s)) (VString c)] s
  = (tt, set_heap (<[r := mkElmFile (path f) c None]> (heap s)) s,
     [FsReadFile (relativePath_of p); FsReadFile (relativePath_of p);
      DebugLog (file_message G (relativePath_of p) " has been changed");
      CollectFile g r]
     ++ runReview_calls g G).
Proof.
  intros Hg Hc Hr Hne. pose proof (lookup_lt_Some _ _ _ Hr) as Hlt.
  change [Emit g SourceFiles Change p; Emit g SourceFiles Change p;
          Resolve (length (pending s)) (VString c);
          Resolve (length (pending s)) (VString c)]
    with ([Emit g SourceFiles Change p; Emit g SourceFiles Change p]
          ++ [Resolve (length (pending s)) (VString c);
              Resolve (length (pending s)) (VString c)]).
  rewrite run_app, (two_changes_suspended s g r G p Hg Hc).
  erewrite run_cons_eq; cycle 1.
  { apply (fileWatcher_change_differs _ _ g r G (relativePath_of p) c f);
      [by apply list_lookup_middle | exact Hg | exact Hr | exact Hne]. }
  { eapply run_cons_eq; [|apply run_nil].
    apply (fileWatcher_change_same _ _ g r G (relativePath_of p) (mkElmFile (path f) c None));
      [|exact Hg|].
    - cbn. rewrite delete_middle. apply lookup_last_task.
    - cbn. by apply list_lookup_insert_eq. }
  cbn. rewrite delete_middle. cbn. rewrite delete_last_task, !app_nil_r.
  by destruct s.
Qed.

(** X19.  The record ends with the content of the read that ended last:
    of two [change] events of a cached file whose reads return different
    contents, each read that ends updates the record and notifies, and
    the content of the later one stays. *)
Theorem last_read_wins
    (s : Process) (g r : nat) (G : Generation) (p c1 c2 : string) (f : ElmFile) :
  generations s !! g = Some G →
  filesInMemoryCache s !! relativePath_of p = Some r →
  heap s !! r = Some f →
  source f ≠ c1 →
  c1 ≠ c2 →
  run [Emit g SourceFiles Change p; Emit g SourceFiles Change p;
       Resolve (length (pending s)) (VString c1);
       Resolve (length (pending s)) (VString c2)] s
  = (tt, set_heap (<[r := mkElmFile (path f) c2 None]> (heap s)) s,
     [FsReadFile (relativePath_of p); FsReadFile (relativePath_of p);
      DebugLog (file_message G (relativePath_of p) " has been changed");
      CollectFile g r]
     ++ runReview_calls g G
     ++ [DebugLog (file_message G (relativePath_of p) " has been changed");
         CollectFile g r]
     ++ runReview_calls g G).
Proof.
  intros Hg Hc Hr Hne1 Hne2. pose proof (lookup_lt_Some _ _ _ Hr) as Hlt.
  change [Emit g SourceFiles Change p; Emit g SourceFiles Change p;
          Resolve (length (pending s)) (VString c1);
          Resolve (length (pending s)) (VString c2)]
    with ([Emit g SourceFiles Change p; Emit g SourceFiles Change p]
          ++ [Resolve (length (pending s)) (VString c1);
              Resolve (length (pending s)) (VString c2)]).
  rewrite run_app, (two_changes_suspended s g r G p Hg Hc).
  erewrite run_cons_eq; cycle 1.
  { apply (fileWatcher_change_differs _ _ g r G (relativePath_of p) c1 f);
      [by apply list_lookup_middle | exact Hg | exact Hr | exact Hne1]. }
  { eapply run_cons_eq; [|apply run_nil].
    apply (fileWatcher_change_differs _ _ g r G (relativePath_of p) c2
             (mkElmFile (path f) c1 None)); [|exact Hg| |exact Hne2].
    - cbn. rewrite delete_middle. apply lookup_last_task.
    - cbn. by apply list_lookup_insert_eq. }
  cbn. rewrite delete_middle. cbn.
  rewrite delete_last_task, list_insert_insert_eq, ?app_nil_r.
  rewrite <- ?app_assoc. by destruct s.
Qed.
End Watch.

(** ** A project on a POSIX system *)

(** The watchers are set on relative patterns, so the paths they report
    are relative to the working directory and use [/]: the path helpers
    leave them as they are, and [path.resolve] of a relative directory is
    a concatenation. *)
Definition posix (p : string) : string := p.
Definition resolve_posix (base directory : string) : string := base +:+ "/" +:+ directory.
Definition plain_path (_ : Options) (p : string) : string := p.

Definition example_step : Input → M unit := step posix posix resolve_posix plain_path.
Definition example_run : list Input → M unit := run posix posix resolve_posix plain_path.
Definition example_calls : list Input → Process → list Effect :=
  calls_of posix posix resolve_posix plain_path.
Definition example_state : list Input → Process → Process :=
  state_after posix posix resolve_posix plain_path.

Definition example_manifest : Json :=
  JObject [("type", JString "application"); ("source-directories", JArray [JString "src"])].

Definition example_options : Options :=
  mkOptions "elm.json" (Some "README.md") "human" false true "review/suppressed" "review".

Definition example_main : ElmFile :=
  mkElmFile "src/Main.elm" "module Main exposing (main)" None.

Definition example_watchOptions : WatchOptions :=
  mkWatchOptions example_manifest [example_main] ["src"] ["src"] (Some "review/elm.json").

Definition example_generation : Generation :=
  new_generation posix resolve_posix example_options example_watchOptions.

(** The process after the first call of [watchFiles]. *)
Definition started : Process :=
  example_state [CallWatchFiles example_options example_watchOptions] initial.

(** The manifest of the project with its two members the other way
    round. *)
Definition reordered_manifest : Json :=
  JObject [("source-directories", JArray [JString "src"]); ("type", JString "application")].

Example JSON_stringify_example :
  JSON_stringify example_manifest
  = "{" +:+ json_quote "type" +:+ ":" +:+ json_quote "application" +:+ ","
    +:+ json_quote "source-directories" +:+ ":[" +:+ json_quote "src" +:+ "]}".
Proof. reflexivity. Qed.

Example started_example :
  generations started !! 0 = Some example_generation
  ∧ filesInMemoryCache started !! "src/Main.elm" = Some 0
  ∧ heap started = [example_main]
  ∧ isFlushingStdio started = true.
Proof. by vm_compute. Qed.

(** *** The claims at this project *)

Lemma configuration_restart_leaves_reviews_on_witness :
  example_run [Emit 0 ConfigurationFiles Change "review/src/ReviewConfig.elm";
               Emit 0 SourceFiles Unlink "src/Main.elm"] started
  = (tt, set_pending [(0, ConfigurationAwaitClose)] started,
     [Close 0 ConfigurationFiles;
      DebugLog "File src/Main.elm has been removed";
      RemoveFile 0 "src/Main.elm";
      RequestReview 0]).
Proof.
  apply (configuration_restart_leaves_reviews_on posix posix resolve_posix plain_path
           started 0 example_generation
           (mkWatcher ["review/src/**/*.elm"; "review/elm.json"] [] true));
    reflexivity.
Defined.

(** The input that refutes C2 as it is written: the manifest changes
    while [configurationWatcher] is installed. *)
Lemma elmJson_restart_counterexample :
  (example_step (Resolve 0 (VJson JNull))
     (example_state [Emit 0 Manifest Change "elm.json"] started)).2
  = [Close 0 Manifest; Close 0 ReadmeFile; Close 0 SourceFiles;
     Close 0 SuppressionFolder; Close 0 ConfigurationFiles]
  ∧ ¬ (Close 0 ConfigurationFiles
       ∉ (example_step (Resolve 0 (VJson JNull))
            (example_state [Emit 0 Manifest Change "elm.json"] started)).2).
Proof.
  split; [reflexivity|]. intros Hnot. apply Hnot.
  change (Close 0 ConfigurationFiles
          ∈ [Close 0 Manifest; Close 0 ReadmeFile; Close 0 SourceFiles;
             Close 0 SuppressionFolder; Close 0 ConfigurationFiles]).
  do 4 right. left.
Qed.

Lemma elmJson_restart_closes_configurationWatcher_witness :
  (example_step (Emit 0 ConfigurationFiles Change "review/elm.json") started).2
  = [Close 0 ConfigurationFiles]
  ∧ (example_step (Resolve 0 VUnit)
       (example_state [Emit 0 ConfigurationFiles Change "review/elm.json"] started)).2
    = [ClearConsole;
       ConsoleLog "Your configuration has changed. Restarting elm-review with the new one.";
       Close 0 Manifest; Close 0 ReadmeFile; Close 0 SourceFiles; Close 0 SuppressionFolder].
Proof.
  split.
  - apply (elmJson_restart_closes_configurationWatcher posix posix resolve_posix plain_path
             started 0 0 example_generation JNull
             (mkWatcher ["review/src/**/*.elm"; "review/elm.json"] [] true)
             "review/elm.json"); reflexivity.
  - apply (elmJson_restart_closes_configurationWatcher posix posix resolve_posix plain_path
             (example_state [Emit 0 ConfigurationFiles Change "review/elm.json"] started)
             0 0 example_generation JNull
             (mkWatcher ["review/src/**/*.elm"; "review/elm.json"] [] true)
             "review/elm.json"); reflexivity.
Defined.


(** The input at which C4 fails: [elmJsonWatcher] reports an error. *)
Example elmJson_error_example :
  example_step (EmitError 0 Manifest "EMFILE") started
  = (tt, started, [UncaughtError 0 Manifest "EMFILE"])
  ∧ example_step (EmitError 0 SourceFiles "EMFILE") started
    = (tt, started, [OnError 0 "EMFILE"]).
Proof. split; reflexivity. Qed.

Lemma elmJson_unchanged_is_ignored_witness :
  example_run [Emit 0 Manifest Change "elm.json"; Resolve 0 (VJson example_manifest)] started
  = (tt, started, [FsReadJsonFile "elm.json"]).
Proof.
  apply (elmJson_unchanged_is_ignored posix posix resolve_posix plain_path
           started 0 0 example_generation "elm.json" example_manifest); reflexivity.
Defined.

(** The input that refutes C5 as it is written: the manifest is saved
    with its members in another order.  The two values are deep-equal,
    their serialisations differ, and the process restarts. *)
Lemma elmJson_reordered_counterexample :
  deep_equal reordered_manifest (elmJsonContent example_generation) = true
  ∧ (example_run [Emit 0 Manifest Change "elm.json"; Resolve 0 (VJson reordered_manifest);
                  Resolve 0 VUnit] started).2
    = [FsReadJsonFile "elm.json";
       Close 0 Manifest; Close 0 ReadmeFile; Close 0 SourceFiles; Close 0 SuppressionFolder;
       Close 0 ConfigurationFiles;
       ClearConsole; DebugLog "Your `elm.json` has changed. Restarting elm-review.";
       RebuildAndRewatch 0]
  ∧ elmJsonContent
      <$> generations (example_state [Emit 0 Manifest Change "elm.json";
                                      Resolve 0 (VJson reordered_manifest)] started) !! 0
    = Some reordered_manifest
  ∧ ¬ (example_run [Emit 0 Manifest Change "elm.json"; Resolve 0 (VJson reordered_manifest)]
         started
       = (tt, started, [FsReadJsonFile "elm.json"])).
Proof.
  split; [reflexivity|]. split; [reflexivity|]. split; [reflexivity|].
  intros H. apply (f_equal snd) in H. vm_compute in H. discriminate H.
Qed.

Lemma started_timer_tracked : timer_tracked 0 started.
Proof.
  exists example_generation. split; [reflexivity|].
  intros t Ht. by apply elem_of_nil in Ht.
Defined.

(** Three changes 5 ms apart, then 20 ms of silence. *)
Lemma suppression_burst_refreshes_once_witness :
  List.filter (refresh_of 0)
    (example_calls
       [Emit 0 SuppressionFolder Change "review/suppressed/NoUnused.json"; Elapse 5;
        Emit 0 SuppressionFolder Change "review/suppressed/NoUnused.json"; Elapse 5;
        Emit 0 SuppressionFolder Change "review/suppressed/NoUnused.json"; Elapse 20]
       started)
  = [SuppressedErrorsRead 0].
Proof.
  apply (suppression_burst_refreshes_once posix posix resolve_posix plain_path
           started 0
           [(Change, "review/suppressed/NoUnused.json", 5);
            (Change, "review/suppressed/NoUnused.json", 5)]
           Change "review/suppressed/NoUnused.json" 20).
  - exact started_timer_tracked.
  - repeat constructor; cbn; lia.
  - lia.
Defined.

(** The input at which C7 fails: a file below a directory named
    [node_modules] inside the source directory.  The glob of the source
    directory matches its path and no ignored pattern does, nor any of
    the directories on the way; the watcher emits [add], and the record
    is sent.  A directory [node_modules] at the root of the paths is
    ignored, and so is the file of the last pattern at any depth. *)
Example nested_node_modules_example :
  reports (fileWatcher example_generation) "src/node_modules/elm/Main.elm" = true
  ∧ map (λ q, existsb (λ pattern, glob_match pattern q) (chokidar_ignored fileWatcher_ignored))
        ["src"; "src/node_modules"; "src/node_modules/elm"; "src/node_modules/elm/Main.elm"]
    = [false; false; false; false]
  ∧ (fileWatcher_notified posix posix plain_path 0 Add "src/node_modules/elm/Main.elm"
       started).2
    = [DebugLog "File src/node_modules/elm/Main.elm has been added";
       FsReadFile "src/node_modules/elm/Main.elm"]
  ∧ (example_step (Resolve 0 (VString "module Main exposing (main)"))
       (fileWatcher_notified posix posix plain_path 0 Add "src/node_modules/elm/Main.elm"
          started).1.2).2
    = [CollectFile 0 1; RequestReview 0]
  ∧ map (λ q, existsb (λ pattern, glob_match pattern q) (chokidar_ignored fileWatcher_ignored))
        ["node_modules"; "node_modules/elm/Main.elm"; "elm-stuff/0.19.1/d.dat"; ".git";
         "src/ElmjutsuDumMyM0DuL3.elm"; "src/Main.elm"; "src/.hidden/Main.elm"]
    = [true; true; true; true; true; false; false]
  ∧ fileWatcher_notified posix posix plain_path 0 Add "src/ElmjutsuDumMyM0DuL3.elm" started
    = (tt, started, []).
Proof. by vm_compute. Qed.

Lemma stdin_listener_is_registered_once_witness :
  List.filter is_StdinOnReadable
    (example_calls
       ([Emit 0 SourceFiles Change "src/Main.elm"; Elapse 3]
        ++ CallWatchFiles example_options example_watchOptions
           :: [Emit 0 Manifest Change "elm.json";
               CallWatchFiles example_options example_watchOptions])
       initial)
  = [StdinOnReadable].
Proof.
  apply (stdin_listener_is_registered_once posix posix resolve_posix plain_path
           [Emit 0 SourceFiles Change "src/Main.elm"; Elapse 3]
           [Emit 0 Manifest Change "elm.json";
            CallWatchFiles example_options example_watchOptions]
           example_options example_watchOptions).
  repeat constructor.
Defined.

(** The same content three times, for a path the cache never held. *)
Lemma change_of_unknown_path_never_caches_witness :
  example_run (changes_of 0 "src/New.elm" 0 ["module New"; "module New"; "module New"]) started
  = (tt,
     set_heap [example_main;
               mkElmFile "src/New.elm" "module New" None;
               mkElmFile "src/New.elm" "module New" None;
               mkElmFile "src/New.elm" "module New" None] started,
     [FsReadFile "src/New.elm"; DebugLog "File src/New.elm has been changed";
      CollectFile 0 1; RequestReview 0;
      FsReadFile "src/New.elm"; DebugLog "File src/New.elm has been changed";
      CollectFile 0 2; RequestReview 0;
      FsReadFile "src/New.elm"; DebugLog "File src/New.elm has been changed";
      CollectFile 0 3; RequestReview 0]).
Proof.
  apply (change_of_unknown_path_never_caches posix posix resolve_posix plain_path
           started 0 example_generation "src/New.elm"
           ["module New"; "module New"; "module New"]).
  - reflexivity.
  - reflexivity.
  - repeat constructor; discriminate.
Defined.

Lemma unlink_keeps_the_cached_record_witness :
  example_run [Emit 0 SourceFiles Unlink "src/Main.elm"; Emit 0 SourceFiles Add "src/Main.elm";
               Resolve 0 (VString "module Main exposing (main)")] started
  = (tt, started,
     [DebugLog "File src/Main.elm has been removed"; RemoveFile 0 "src/Main.elm";
      RequestReview 0;
      DebugLog "File src/Main.elm has been added"; FsReadFile "src/Main.elm";
      CollectFile 0 0; RequestReview 0]).
Proof.
  apply (unlink_keeps_the_cached_record posix posix resolve_posix plain_path
           started 0 0 example_generation "src/Main.elm"
           "module Main exposing (main)" example_main); reflexivity.
Defined.

(** *** More properties at this project *)

(** A project whose README and review configuration are not watched. *)
Definition bare_options : Options :=
  mkOptions "elm.json" None "json" false false "review/suppressed" "review".

Definition bare_watchOptions : WatchOptions :=
  mkWatchOptions example_manifest [example_main] ["src"] [] None.

Definition bare_started : Process :=
  example_state [CallWatchFiles bare_options bare_watchOptions] initial.

(** The process while a changed source file and the manifest are both
    being read. *)
Definition reading_source_and_manifest : Process :=
  example_state [Emit 0 SourceFiles Change "src/Main.elm";
                 Emit 0 Manifest Change "elm.json"] started.

(** The manifest being read, with a refresh of the suppressed errors
    scheduled. *)
Definition reading_manifest_armed : Process :=
  example_state [Emit 0 SuppressionFolder Change "review/suppressed/NoUnused.json";
                 Emit 0 Manifest Change "elm.json"] started.

Lemma first_add_registers_one_record_witness :
  example_run [Emit 0 SourceFiles Add "src/New.elm"; Resolve 0 (VString "module New")] started
  = (tt,
     set_filesInMemoryCache (<["src/New.elm" := 1]> (filesInMemoryCache started))
       (set_heap [example_main; mkElmFile "src/New.elm" "module New" None] started),
     [DebugLog "File src/New.elm has been added"; FsReadFile "src/New.elm";
      CollectFile 0 1; RequestReview 0]).
Proof.
  apply (first_add_registers_one_record posix posix resolve_posix plain_path
           started 0 example_generation "src/New.elm" "module New"); reflexivity.
Defined.

Lemma elmJson_restart_rebuilds_once_witness :
  (example_run [Emit 0 Manifest Change "elm.json"; Resolve 0 (VJson JNull); Resolve 0 VUnit]
     started).2
  = [FsReadJsonFile "elm.json";
     Close 0 Manifest; Close 0 ReadmeFile; Close 0 SourceFiles; Close 0 SuppressionFolder;
     Close 0 ConfigurationFiles;
     ClearConsole; DebugLog "Your `elm.json` has changed. Restarting elm-review.";
     RebuildAndRewatch 0].
Proof.
  refine (f_equal snd
            (elmJson_restart_rebuilds_once posix posix resolve_posix plain_path
               started 0 example_generation "elm.json" JNull _ _));
    [reflexivity | by vm_compute].
Defined.

Lemma configuration_restart_rebuilds_once_witness :
  (example_run [Emit 0 ConfigurationFiles Change "review/elm.json";
                Resolve 0 VUnit; Resolve 0 VUnit] started).2
  = [Close 0 ConfigurationFiles;
     ClearConsole;
     ConsoleLog "Your configuration has changed. Restarting elm-review with the new one.";
     Close 0 Manifest; Close 0 ReadmeFile; Close 0 SourceFiles; Close 0 SuppressionFolder;
     RebuildAndRewatch 0].
Proof.
  refine (f_equal snd
            (configuration_restart_rebuilds_once posix posix resolve_posix plain_path
               started 0 example_generation
               (mkWatcher ["review/src/**/*.elm"; "review/elm.json"] [] true)
               "review/elm.json" _ _));
    reflexivity.
Defined.

Lemma repeated_elmJson_change_restarts_once_witness :
  (example_run [Emit 0 Manifest Change "elm.json"; Emit 0 Manifest Change "elm.json";
                Resolve 0 (VJson JNull); Resolve 0 (VJson JNull)] started).2
  = [FsReadJsonFile "elm.json"; FsReadJsonFile "elm.json";
     Close 0 Manifest; Close 0 ReadmeFile; Close 0 SourceFiles; Close 0 SuppressionFolder;
     Close 0 ConfigurationFiles].
Proof.
  refine (f_equal snd
            (repeated_elmJson_change_restarts_once posix posix resolve_posix plain_path
               started 0 example_generation "elm.json" "elm.json" JNull _ _));
    [reflexivity | by vm_compute].
Defined.

(** What follows the restart started by the manifest: time passes, the
    watchers are closed, [watchFiles] is called again, and the
    suppression folder of the new generation changes. *)
Definition after_the_restart : list Input :=
  [Elapse 30; Resolve 0 VUnit; CallWatchFiles example_options example_watchOptions;
   Emit 1 SuppressionFolder Change "review/suppressed/NoUnused.json"; Elapse 20].

Lemma restart_cancels_the_refresh_witness :
  armed 0 reading_manifest_armed = [mkTimer 0 20 0]
  ∧ armed 0 (example_step (Resolve 0 (VJson JNull)) reading_manifest_armed).1.2 = []
  ∧ (SuppressedErrorsRead 0
     ∉ example_calls after_the_restart
         (example_step (Resolve 0 (VJson JNull)) reading_manifest_armed).1.2)
  ∧ List.filter (λ e, match e with SuppressedErrorsRead _ => true | _ => false end)
      (example_calls after_the_restart
         (example_step (Resolve 0 (VJson JNull)) reading_manifest_armed).1.2)
    = [SuppressedErrorsRead 1].
Proof.
  split; [reflexivity|].
  destruct (restart_cancels_the_refresh posix posix resolve_posix plain_path
              reading_manifest_armed 0 0
              (set_suppressedErrorsTimeout (Some 0) example_generation) JNull
              after_the_restart) as [Hmanifest _].
  - reflexivity.
  - intros t Ht. change (t ∈ [mkTimer 0 20 0]) in Ht.
    apply list_elem_of_singleton in Ht. by rewrite Ht.
  - repeat constructor.
  - destruct Hmanifest as (Harm & Hcalls & _).
    + reflexivity.
    + by vm_compute.
    + split; [exact Harm|]. split; [exact Hcalls | reflexivity].
Defined.

Lemma restart_silences_the_generation_witness :
  (RequestReview 0
   ∉ example_calls [Resolve 1 (VJson JNull); Resolve 0 (VString "module Main exposing (..)")]
       reading_source_and_manifest)
  ∧ example_calls [Resolve 1 (VJson JNull); Resolve 0 (VString "module Main exposing (..)")]
      reading_source_and_manifest
    = [Close 0 Manifest; Close 0 ReadmeFile; Close 0 SourceFiles; Close 0 SuppressionFolder;
       Close 0 ConfigurationFiles;
       DebugLog "File src/Main.elm has been changed"; CollectFile 0 0].
Proof.
  split; [|reflexivity].
  apply (restart_silences_the_generation posix posix resolve_posix plain_path
           reading_source_and_manifest 1 0 example_generation JNull
           [Resolve 0 (VString "module Main exposing (..)")]).
  - reflexivity.
  - reflexivity.
  - by vm_compute.
Defined.

Lemma records_keep_address_and_path_witness :
  ∃ f', heap (example_state [Emit 0 SourceFiles Change "src/Main.elm";
                             Resolve 0 (VString "module Main exposing (..)")] started)
          !! 0 = Some f'
        ∧ path f' = "src/Main.elm"
        ∧ (f' = example_main ∨ ast f' = None).
Proof.
  apply (records_keep_address_and_path posix posix resolve_posix plain_path
           [Emit 0 SourceFiles Change "src/Main.elm";
            Resolve 0 (VString "module Main exposing (..)")]
           started 0 example_main).
  reflexivity.
Defined.

Lemma cache_entries_are_records_witness :
  ∃ f, heap started !! 0 = Some f ∧ path f = "src/Main.elm".
Proof.
  apply (cache_entries_are_records posix posix resolve_posix plain_path
           [CallWatchFiles example_options example_watchOptions] "src/Main.elm" 0).
  reflexivity.
Defined.

Lemma cache_never_forgets_a_path_witness :
  is_Some (filesInMemoryCache
             (example_state [Emit 0 SourceFiles Unlink "src/Main.elm"] started)
           !! "src/Main.elm").
Proof.
  apply (cache_never_forgets_a_path posix posix resolve_posix plain_path
           [Emit 0 SourceFiles Unlink "src/Main.elm"] started "src/Main.elm").
  exists 0. reflexivity.
Defined.

Lemma watchFiles_seeds_the_cache_witness :
  filesInMemoryCache started !! "src/Main.elm" = Some 0
  ∧ heap started !! 0 = Some example_main.
Proof.
  destruct (watchFiles_seeds_the_cache posix posix resolve_posix plain_path
              example_options example_watchOptions initial 0 example_main "src/Main.elm")
    as (Hc & Hh & _).
  - apply NoDup_singleton.
  - reflexivity.
  - reflexivity.
  - split; [exact Hc | exact Hh].
Defined.

Lemma onError_only_answers_errors_witness :
  ∃ t, EmitError 0 t "EMFILE" ∈ [EmitError 0 SourceFiles "EMFILE"]
       ∧ (t = ReadmeFile ∨ t = SourceFiles ∨ t = SuppressionFolder).
Proof.
  apply (onError_only_answers_errors posix posix resolve_posix plain_path
           [EmitError 0 SourceFiles "EMFILE"] started 0 "EMFILE").
  change (OnError 0 "EMFILE" ∈ [OnError 0 "EMFILE"]). left.
Defined.

Lemma no_configurationWatcher_without_configuration_witness :
  example_step (Emit 0 ConfigurationFiles Change "review/elm.json") bare_started
  = (tt, bare_started, []).
Proof.
  apply (no_configurationWatcher_without_configuration posix posix resolve_posix plain_path
           bare_options bare_watchOptions initial []).
  left. reflexivity.
Defined.

Lemma no_readmeWatcher_without_readmePath_witness :
  example_step (Emit 0 ReadmeFile Add "README.md") bare_started = (tt, bare_started, []).
Proof.
  apply (no_readmeWatcher_without_readmePath posix posix resolve_posix plain_path
           bare_options bare_watchOptions initial []).
  reflexivity.
Defined.

Lemma readme_add_always_notifies_witness :
  example_run [Emit 0 ReadmeFile Add "README.md"; Resolve 0 (VString "# Project")] started
  = (tt, set_cachedReadme (Some (mkReadme "README.md" "# Project")) started,
     [DebugLog "README.md has been added"; FsReadFile "README.md";
      CollectReadme 0 (mkReadme "README.md" "# Project"); RequestReview 0]).
Proof.
  apply (readme_add_always_notifies posix posix resolve_posix plain_path
           started 0 example_generation (mkWatcher ["README.md"] [] true)
           "README.md" "README.md" "# Project"); reflexivity.
Defined.

Lemma rebuild_only_after_reviews_are_off_witness :
  ∃ G, generations
         (example_state [CallWatchFiles example_options example_watchOptions;
                         Emit 0 Manifest Change "elm.json";
                         Resolve 0 (VJson JNull)] initial) !! 0 = Some G
       ∧ runReview G = DoesNothing.
Proof.
  apply (rebuild_only_after_reviews_are_off posix posix resolve_posix plain_path
           [CallWatchFiles example_options example_watchOptions;
            Emit 0 Manifest Change "elm.json";
            Resolve 0 (VJson JNull)]
           (Resolve 0 VUnit) 0).
  change (RebuildAndRewatch 0
          ∈ [ClearConsole; DebugLog "Your `elm.json` has changed. Restarting elm-review.";
             RebuildAndRewatch 0]).
  do 2 right. left.
Defined.

Lemma concurrent_adds_make_two_records_witness :
  filesInMemoryCache
    (example_state [Emit 0 SourceFiles Add "src/New.elm"; Emit 0 SourceFiles Add "src/New.elm";
                    Resolve 0 (VString "module New"); Resolve 0 (VString "module New exposing (a)")]
       started) !! "src/New.elm" = Some 2
  ∧ filesInMemoryCache
      (example_state [Emit 0 SourceFiles Add "src/New.elm"; Emit 0 SourceFiles Add "src/New.elm";
                      Resolve 1 (VString "module New exposing (a)");
                      Resolve 0 (VString "module New")]
         started) !! "src/New.elm" = Some 1
  ∧ (example_run [Emit 0 SourceFiles Add "src/New.elm"; Emit 0 SourceFiles Add "src/New.elm";
                  Resolve 1 (VString "module New exposing (a)");
                  Resolve 0 (VString "module New")]
       started).2
    = [DebugLog "File src/New.elm has been added"; FsReadFile "src/New.elm";
       DebugLog "File src/New.elm has been added"; FsReadFile "src/New.elm";
       CollectFile 0 2; RequestReview 0; CollectFile 0 1; RequestReview 0].
Proof.
  destruct (concurrent_adds_make_two_records posix posix resolve_posix plain_path
              started 0 example_generation "src/New.elm" "module New"
              "module New exposing (a)") as [Hfirst Hsecond].
  - reflexivity.
  - reflexivity.
  - split; [|split].
    + exact (f_equal (λ x, filesInMemoryCache x.1.2 !! "src/New.elm") Hfirst).
    + exact (f_equal (λ x, filesInMemoryCache x.1.2 !! "src/New.elm") Hsecond).
    + exact (f_equal snd Hsecond).
Defined.

Lemma repeated_change_notifies_once_witness :
  (example_run [Emit 0 SourceFiles Change "src/Main.elm";
                Emit 0 SourceFiles Change "src/Main.elm";
                Resolve 0 (VString "module Main exposing (..)");
                Resolve 0 (VString "module Main exposing (..)")] started).2
  = [FsReadFile "src/Main.elm"; FsReadFile "src/Main.elm";
     DebugLog "File src/Main.elm has been changed"; CollectFile 0 0; RequestReview 0].
Proof.
  refine (f_equal snd
            (repeated_change_notifies_once posix posix resolve_posix plain_path
               started 0 0 example_generation "src/Main.elm" "module Main exposing (..)"
               example_main _ _ _ _));
    [reflexivity | reflexivity | reflexivity | discriminate].
Defined.

Lemma last_read_wins_witness :
  heap (example_state [Emit 0 SourceFiles Change "src/Main.elm";
                       Emit 0 SourceFiles Change "src/Main.elm";
                       Resolve 0 (VString "module Main exposing (a)");
                       Resolve 0 (VString "module Main exposing (b)")] started)
  = [mkElmFile "src/Main.elm" "module Main exposing (b)" None].
Proof.
  refine (f_equal (λ x, heap x.1.2)
            (last_read_wins posix posix resolve_posix plain_path
               started 0 0 example_generation "src/Main.elm"
               "module Main exposing (a)" "module Main exposing (b)" example_main
               _ _ _ _ _));
    [reflexivity | reflexivity | reflexivity | discriminate | discriminate].
Defined.
